(** * filemanager: a shallow embedding of the S3 file manager

    The development follows the Go package [filemanager]
    (file_manager.go, utils.go, the option functions and the predefined
    errors).  Go strings are modelled as [string], the nil-able [error]
    interface as [option error], [int64] as [Z], and calls to the injected
    storage and HTTP clients as effects of a small program type that is
    interpreted over an explicit state of the outside world.  The
    goroutines of directory removal take turns at these calls under an
    arbitrary schedule.  The multipart parser of net/http is outside the
    package: a request is what it answers to the two calls made on it. *)

From Stdlib Require Import String Ascii List Bool ZArith Lia Arith.
From Stdlib Require Import Permutation.
Import ListNotations.

Local Open Scope string_scope.
Local Open Scope list_scope.

(** ** Go strings *)

Module strings.

(** [strings.HasPrefix(s, prefix)]. *)
Definition HasPrefix (s prefix : string) : bool := String.prefix prefix s.

(** [strings.TrimPrefix(s, prefix)]: [s] without the leading [prefix],
    and [s] itself when it does not start with [prefix]. *)
Definition TrimPrefix (s prefix : string) : string :=
  if HasPrefix s prefix
  then substring (String.length prefix) (String.length s - String.length prefix) s
  else s.

(** [strings.HasSuffix(s, suffix)]: some tail of [s] is [suffix]. *)
Fixpoint HasSuffix (s suffix : string) : bool :=
  String.eqb s suffix ||
  match s with
  | EmptyString => false
  | String _ rest => HasSuffix rest suffix
  end.

(** Membership of a byte in a cutset. *)
Fixpoint inCutset (c : ascii) (cutset : string) : bool :=
  match cutset with
  | EmptyString => false
  | String d rest => Ascii.eqb c d || inCutset c rest
  end.

(** [strings.TrimLeft(s, cutset)]. *)
Fixpoint TrimLeft (s cutset : string) : string :=
  match s with
  | EmptyString => EmptyString
  | String c rest => if inCutset c cutset then TrimLeft rest cutset else s
  end.

(** [strings.TrimRight(s, cutset)]. *)
Fixpoint TrimRight (s cutset : string) : string :=
  match s with
  | EmptyString => EmptyString
  | String c rest =>
      match TrimRight rest cutset with
      | EmptyString => if inCutset c cutset then EmptyString else String c EmptyString
      | kept => String c kept
      end
  end.

(** [strings.Trim(s, cutset)]: all leading and trailing bytes of [s] that
    are in [cutset] removed. *)
Definition Trim (s cutset : string) : string :=
  TrimRight (TrimLeft s cutset) cutset.

(** [strings.Contains(s, substr)], by scanning every suffix of [s]. *)
Fixpoint Contains (s substr : string) : bool :=
  HasPrefix s substr ||
  match s with
  | EmptyString => false
  | String _ rest => Contains rest substr
  end.

End strings.

Module path.

(** Index-free rendering of the loop of [path.Base] that finds the last
    element: the part of [s] after its last slash. *)
Fixpoint lastElement (s : string) : string :=
  match s with
  | EmptyString => EmptyString
  | String c rest =>
      if strings.Contains rest "/" then lastElement rest
      else if Ascii.eqb c "/"%char then rest
      else s
  end.

(** [path.Base(path)]: the last element of the path, trailing slashes
    removed first; ["."] for the empty path and ["/"] for a path of
    slashes only. *)
Definition Base (p : string) : string :=
  if String.eqb p "" then "."
  else
    let p := strings.TrimRight p "/" in
    let p := lastElement p in
    if String.eqb p "" then "/" else p.

End path.

Module filepath.

(** [filepath.Base(path)] where the separator is the slash and there are
    no volume names, as on Unix: the function of package path. *)
Definition Base (p : string) : string := path.Base p.

End filepath.

(** ** Errors *)

(** The predefined errors of the package, in the revision that declares
    all fourteen.  Each is created once by [errors.New], so two of them
    are the same error value exactly when they are the same variable. *)
Inductive sentinel : Type :=
| InvalidS3ClientConfig
| FailedToUploadFile
| FailedToRemoveFile
| FailedToCheckIfFileExists
| FailedToRemoveFiles
| MissedBucketName
| MissedS3Client
| MissedCDNURL
| InvalidCDNURL
| FailedToUploadFileFromURL
| FailedToUploadFileFromMultipartForm
| NotFound
| Unexpected
| MissedHTTPClient.

(** Non-nil Go error values.
    - [Sentinel s]: one of the package's predefined errors;
    - [AwsErr code message]: a value implementing [awserr.Error], the
      provider-specific error of the storage SDK; the SDK's error types
      have no [Unwrap] method;
    - [Opaque msg]: any other error without an [Unwrap] method, such as a
      network transport error;
    - [Wrap msg inner]: an error with [Unwrap() error], as [fmt.Errorf]
      builds with the verb w;
    - [JoinErr errs]: the result of [errors.Join], with [Unwrap() []error]. *)
#[local] Unset Elimination Schemes.
Inductive error : Type :=
| Sentinel (s : sentinel)
| AwsErr (code message : string)
| Opaque (msg : string)
| Wrap (msg : string) (inner : error)
| JoinErr (errs : list error).
#[local] Set Elimination Schemes.

Definition ErrInvalidS3ClientConfig := Sentinel InvalidS3ClientConfig.
Definition ErrFailedToUploadFile := Sentinel FailedToUploadFile.
Definition ErrFailedToRemoveFile := Sentinel FailedToRemoveFile.
Definition ErrFailedToCheckIfFileExists := Sentinel FailedToCheckIfFileExists.
Definition ErrFailedToRemoveFiles := Sentinel FailedToRemoveFiles.
Definition ErrMissedBucketName := Sentinel MissedBucketName.
Definition ErrMissedS3Client := Sentinel MissedS3Client.
Definition ErrMissedCDNURL := Sentinel MissedCDNURL.
Definition ErrInvalidCDNURL := Sentinel InvalidCDNURL.
Definition ErrFailedToUploadFileFromURL := Sentinel FailedToUploadFileFromURL.
Definition ErrFailedToUploadFileFromMultipartForm :=
  Sentinel FailedToUploadFileFromMultipartForm.
Definition ErrNotFound := Sentinel NotFound.
Definition ErrUnexpected := Sentinel Unexpected.
Definition ErrMissedHTTPClient := Sentinel MissedHTTPClient.

Definition sentinel_eqb (a b : sentinel) : bool :=
  match a, b with
  | InvalidS3ClientConfig, InvalidS3ClientConfig
  | FailedToUploadFile, FailedToUploadFile
  | FailedToRemoveFile, FailedToRemoveFile
  | FailedToCheckIfFileExists, FailedToCheckIfFileExists
  | FailedToRemoveFiles, FailedToRemoveFiles
  | MissedBucketName, MissedBucketName
  | MissedS3Client, MissedS3Client
  | MissedCDNURL, MissedCDNURL
  | InvalidCDNURL, InvalidCDNURL
  | FailedToUploadFileFromURL, FailedToUploadFileFromURL
  | FailedToUploadFileFromMultipartForm, FailedToUploadFileFromMultipartForm
  | NotFound, NotFound
  | Unexpected, Unexpected
  | MissedHTTPClient, MissedHTTPClient => true
  | _, _ => false
  end.

(** Equality of error values ([err == target] on interface values).  The
    model identifies an error value with its structure. *)
Fixpoint error_eqb (a b : error) : bool :=
  match a, b with
  | Sentinel s, Sentinel t => sentinel_eqb s t
  | AwsErr c m, AwsErr c' m' => String.eqb c c' && String.eqb m m'
  | Opaque m, Opaque m' => String.eqb m m'
  | Wrap m e, Wrap m' e' => String.eqb m m' && error_eqb e e'
  | JoinErr l, JoinErr l' =>
      (fix all2 (l l' : list error) : bool :=
         match l, l' with
         | [], [] => true
         | x :: xs, y :: ys => error_eqb x y && all2 xs ys
         | _, _ => false
         end) l l'
  | _, _ => false
  end.

Section ErrorInduction.

Variable P : error -> Prop.
Hypothesis HSentinel : forall s, P (Sentinel s).
Hypothesis HAwsErr : forall code message, P (AwsErr code message).
Hypothesis HOpaque : forall msg, P (Opaque msg).
Hypothesis HWrap : forall msg inner, P inner -> P (Wrap msg inner).
Hypothesis HJoin : forall errs, Forall P errs -> P (JoinErr errs).

(** Induction on an error tree, with the hypothesis for every joined
    error. *)
Fixpoint error_ind (e : error) : P e :=
  match e with
  | Sentinel s => HSentinel s
  | AwsErr code message => HAwsErr code message
  | Opaque msg => HOpaque msg
  | Wrap msg inner => HWrap msg inner (error_ind inner)
  | JoinErr errs =>
      HJoin errs
        ((fix all (l : list error) : Forall P l :=
            match l with
            | [] => Forall_nil P
            | x :: xs => Forall_cons x (error_ind x) (all xs)
            end) errs)
  end.

End ErrorInduction.

Module errors.

(** [errors.Join(errs...)]: nil values are discarded; the result is nil
    when nothing is left. *)
Fixpoint nonNil (errs : list (option error)) : list error :=
  match errs with
  | [] => []
  | None :: rest => nonNil rest
  | Some e :: rest => e :: nonNil rest
  end.

Definition Join (errs : list (option error)) : option error :=
  match nonNil errs with
  | [] => None
  | es => Some (JoinErr es)
  end.

(** The loop of [errors.Is] on a non-nil [err]: compare, then descend
    through [Unwrap() error] or, depth first, [Unwrap() []error]. *)
Fixpoint is' (err target : error) : bool :=
  error_eqb err target ||
  match err with
  | Wrap _ inner => is' inner target
  | JoinErr errs =>
      (fix any (l : list error) : bool :=
         match l with
         | [] => false
         | e :: rest => is' e target || any rest
         end) errs
  | _ => false
  end.

(** [errors.Is(err, target)]. *)
Definition Is (err target : option error) : bool :=
  match err, target with
  | Some e, Some t => is' e t
  | None, None => true
  | _, _ => false
  end.

(** [errors.As(err, &aerr)] for a target of interface type
    [awserr.Error]: the first error of the tree, depth first, that is a
    provider error, given by its code and message. *)
Fixpoint asAwsErr (err : error) : option (string * string) :=
  match err with
  | AwsErr code message => Some (code, message)
  | Wrap _ inner => asAwsErr inner
  | JoinErr errs =>
      (fix first (l : list error) : option (string * string) :=
         match l with
         | [] => None
         | e :: rest =>
             match asAwsErr e with
             | Some a => Some a
             | None => first rest
             end
         end) errs
  | _ => None
  end.

Definition As (err : option error) : option (string * string) :=
  match err with
  | None => None
  | Some e => asAwsErr e
  end.

End errors.

(** ** utils.go *)

(** [filenameFromURL(cdnURL, fileURL)]. *)
Definition filenameFromURL (cdnURL fileURL : string) : string :=
  strings.TrimPrefix fileURL cdnURL.

(** [handleS3Error(err)], in the revision of utils.go that recognises a
    provider error with [errors.As]. *)
Definition handleS3Error (err : option error) : option error :=
  match errors.As err with
  | Some (code, _) =>
      if String.eqb code "NotFound" then Some ErrNotFound
      else errors.Join [Some ErrUnexpected; err]
  | None => err
  end.

(** [handleS3Error(err)], in the revision of utils.go that recognises a
    provider error with the type assertion [err.(awserr.Error)]: only an
    error that is itself a provider error is translated. *)
Definition handleS3ErrorAsserted (err : option error) : option error :=
  match err with
  | Some (AwsErr code _) =>
      if String.eqb code "NotFound" then Some ErrNotFound
      else errors.Join [Some ErrUnexpected; err]
  | _ => err
  end.

(** ** Requests and responses of the collaborators *)

Module s3.

Record PutObjectInput : Type := {
  put_ACL : string;
  put_Body : list Byte.byte;
  put_ContentType : string;
  put_Bucket : string;
  put_Key : string
}.

Record ListObjectsV2Input : Type := {
  list_Bucket : string;
  list_Prefix : string
}.

(** One entry of a listing.  The SDK's [Key] is a [*string] that is set on
    every object the service returns; the model keeps the string. *)
Record Object : Type := { Key : string }.

(** The fields of [s3.ListObjectsV2Output] that describe the page. *)
Record ListObjectsV2Output : Type := {
  Contents : list Object;
  IsTruncated : bool;
  NextContinuationToken : option string
}.

Record HeadObjectInput : Type := {
  head_Bucket : string;
  head_Key : string
}.

Record DeleteObjectInput : Type := {
  delete_Bucket : string;
  delete_Key : string
}.

End s3.

Module http.

(** What the code uses of an [*http.Response]: the declared content
    length ([-1] when unknown), the Content-Type header and the body.
    [Body n] is the result of the first [Read] into a buffer of [n]
    bytes: the bytes copied and the error. *)
Record Response : Type := {
  StatusCode : Z;
  ContentLength : Z;
  ContentType : string;
  Body : nat -> list Byte.byte * option error
}.

(** What the code uses of a file field of a multipart form: the file's
    content and what closing it gives, and of its header the filename the
    client sent and the Content-Type entry. *)
Record File : Type := {
  Content : list Byte.byte;
  Close : option error
}.

Record FileHeader : Type := {
  Filename : string;
  HeaderContentType : string
}.

(** What the code uses of an [*http.Request]: [ParseMultipartForm] with a
    memory bound, and then [FormFile] for a field name. *)
Record Request : Type := {
  ParseMultipartForm : Z -> option error;
  FormFile : string -> (File * FileHeader) * option error
}.

End http.

(** [DefaultACL] and [DefaultMaxFileSize]. *)
Definition DefaultACL : string := "public-read".
Definition DefaultMaxFileSize : Z := Z.shiftl 64 20.

(** A call made to a collaborator, as a mock would record it. *)
Inductive Call : Type :=
| CallPut (input : s3.PutObjectInput)
| CallList (input : s3.ListObjectsV2Input)
| CallHead (input : s3.HeadObjectInput)
| CallDelete (input : s3.DeleteObjectInput)
| CallGet (url : string).

(** How a Go function ends: it returns, or the goroutine panics. *)
Inductive outcome (A : Type) : Type :=
| Returned (a : A)
| Panicked (msg : string).
Arguments Returned {A} a.
Arguments Panicked {A} msg.

Section FileManager.

(** The state of everything outside the package: the object store and the
    network. *)
Context {St : Type}.

(** [S3Client]: the storage client interface.  The context and the
    request options do not influence the package's control flow and are
    left out; the outputs of put, head and delete are discarded by every
    caller, so only their error is kept. *)
Record S3Client : Type := {
  PutObjectWithContext : s3.PutObjectInput -> St -> St * option error;
  ListObjectsV2WithContext :
    s3.ListObjectsV2Input -> St -> St * (s3.ListObjectsV2Output * option error);
  HeadObjectWithContext : s3.HeadObjectInput -> St -> St * option error;
  DeleteObjectWithContext : s3.DeleteObjectInput -> St -> St * option error
}.

(** [httpClient]. *)
Record httpClient : Type := {
  Get : string -> St -> St * (http.Response * option error)
}.

(** [FileManager].  The two clients are interface values and may be nil. *)
Record FileManager : Type := {
  fm_s3 : option S3Client;
  fm_httpClient : option httpClient;
  cdnURL : string;
  bucket : string;
  basePath : string;
  maxFileSize : Z
}.

(** *** Programs

    A function of the package is a program: it returns, panics, or calls
    a collaborator and continues with the answer.  The calls are the only
    points at which goroutines interleave. *)
Inductive prog (A : Type) : Type :=
| Ret (a : A)
| Panic (msg : string)
| PutObject (c : S3Client) (input : s3.PutObjectInput)
    (k : option error -> prog A)
| ListObjectsV2 (c : S3Client) (input : s3.ListObjectsV2Input)
    (k : s3.ListObjectsV2Output * option error -> prog A)
| HeadObject (c : S3Client) (input : s3.HeadObjectInput)
    (k : option error -> prog A)
| DeleteObject (c : S3Client) (input : s3.DeleteObjectInput)
    (k : option error -> prog A)
| HttpGet (h : httpClient) (url : string)
    (k : http.Response * option error -> prog A).
Arguments Ret {A} a.
Arguments Panic {A} msg.
Arguments PutObject {A} c input k.
Arguments ListObjectsV2 {A} c input k.
Arguments HeadObject {A} c input k.
Arguments DeleteObject {A} c input k.
Arguments HttpGet {A} h url k.

Fixpoint bind {A B : Type} (m : prog A) (f : A -> prog B) : prog B :=
  match m with
  | Ret a => f a
  | Panic msg => Panic msg
  | PutObject c i k => PutObject c i (fun r => bind (k r) f)
  | ListObjectsV2 c i k => ListObjectsV2 c i (fun r => bind (k r) f)
  | HeadObject c i k => HeadObject c i (fun r => bind (k r) f)
  | DeleteObject c i k => DeleteObject c i (fun r => bind (k r) f)
  | HttpGet h u k => HttpGet h u (fun r => bind (k r) f)
  end.

Notation "'let*' x ':=' m 'in' k" := (bind m (fun x => k))
  (at level 10, x name, m at level 100, k at level 200).
Notation "'let*' ' p ':=' m 'in' k" := (bind m (fun p => k))
  (at level 10, p pattern, m at level 100, k at level 200).

(** The world: the outside state and the calls made so far, oldest
    first. *)
Record World : Type := {
  state : St;
  calls : list Call
}.

Definition record (c : Call) (s : St) (w : World) : World :=
  {| state := s; calls := calls w ++ [c] |}.

(** A running program is at a call, or it has ended. *)
Definition ended {A : Type} (p : prog A) : bool :=
  match p with
  | Ret _ | Panic _ => true
  | _ => false
  end.

(** One call of a program against the world. *)
Definition step {A : Type} (p : prog A) (w : World) : prog A * World :=
  match p with
  | Ret _ | Panic _ => (p, w)
  | PutObject c i k =>
      let (s, r) := PutObjectWithContext c i (state w) in
      (k r, record (CallPut i) s w)
  | ListObjectsV2 c i k =>
      let (s, r) := ListObjectsV2WithContext c i (state w) in
      (k r, record (CallList i) s w)
  | HeadObject c i k =>
      let (s, r) := HeadObjectWithContext c i (state w) in
      (k r, record (CallHead i) s w)
  | DeleteObject c i k =>
      let (s, r) := DeleteObjectWithContext c i (state w) in
      (k r, record (CallDelete i) s w)
  | HttpGet h u k =>
      let (s, r) := Get h u (state w) in
      (k r, record (CallGet u) s w)
  end.

(** A program run to its end without interruption. *)
Fixpoint exec {A : Type} (p : prog A) (w : World) : outcome A * World :=
  match p with
  | Ret a => (Returned a, w)
  | Panic msg => (Panicked msg, w)
  | PutObject c i k =>
      let (s, r) := PutObjectWithContext c i (state w) in
      exec (k r) (record (CallPut i) s w)
  | ListObjectsV2 c i k =>
      let (s, r) := ListObjectsV2WithContext c i (state w) in
      exec (k r) (record (CallList i) s w)
  | HeadObject c i k =>
      let (s, r) := HeadObjectWithContext c i (state w) in
      exec (k r) (record (CallHead i) s w)
  | DeleteObject c i k =>
      let (s, r) := DeleteObjectWithContext c i (state w) in
      exec (k r) (record (CallDelete i) s w)
  | HttpGet h u k =>
      let (s, r) := Get h u (state w) in
      exec (k r) (record (CallGet u) s w)
  end.

(** Calling a method on a nil interface value panics. *)
Definition nilDereference : string :=
  "invalid memory address or nil pointer dereference".

Definition withS3 {A : Type} (fm : FileManager) (call : S3Client -> prog A)
  : prog A :=
  match fm_s3 fm with
  | Some c => call c
  | None => Panic nilDereference
  end.

Definition withHTTP {A : Type} (fm : FileManager) (call : httpClient -> prog A)
  : prog A :=
  match fm_httpClient fm with
  | Some h => call h
  | None => Panic nilDereference
  end.

(** *** file_manager.go *)

(** [fileAbsolutePath(filename)]. *)
Definition fileAbsolutePath (fm : FileManager) (filename : string) : string :=
  cdnURL fm ++ "/" ++ basePath fm ++ "/" ++ strings.Trim filename "/".

(** [Upload(ctx, file, filename, contentType)]. *)
Definition Upload (fm : FileManager) (file : list Byte.byte)
    (filename contentType : string) : prog (string * option error) :=
  let* err := withS3 fm (fun c =>
    PutObject c {| s3.put_ACL := DefaultACL;
                   s3.put_Body := file;
                   s3.put_ContentType := contentType;
                   s3.put_Bucket := bucket fm;
                   s3.put_Key := filename |} Ret) in
  match err with
  | Some _ => Ret ("", errors.Join [Some ErrFailedToUploadFile; err])
  | None => Ret (fileAbsolutePath fm filename, None)
  end.

(** [make([]byte, n)] for an [int64] length: a negative length, or one
    beyond what can be allocated, is a run-time panic. *)
Definition maxAlloc : Z := 2 ^ 48.

Definition make_bytes {A : Type} (n : Z) (k : list Byte.byte -> prog A) : prog A :=
  if (n <? 0)%Z then Panic "makeslice: len out of range"
  else if (maxAlloc <? n)%Z then Panic "makeslice: len out of range"
  else k (repeat Byte.x00 (Z.to_nat n)).

(** [resp.Body.Read(buf)]: the bytes read overwrite the front of [buf]. *)
Definition read_into (body : nat -> list Byte.byte * option error) (buf : list Byte.byte)
  : list Byte.byte * option error :=
  let (got, err) := body (length buf) in
  (firstn (length buf) (got ++ skipn (length got) buf), err).

(** [UploadFromURL(ctx, fileURL)]. *)
Definition UploadFromURL (fm : FileManager) (fileURL : string)
  : prog (string * option error) :=
  let* '(resp, err) := withHTTP fm (fun h => HttpGet h fileURL Ret) in
  match err with
  | Some _ => Ret ("", errors.Join [Some ErrFailedToUploadFileFromURL; err])
  | None =>
      make_bytes (http.ContentLength resp) (fun buf =>
        let (buf, err) := read_into (http.Body resp) buf in
        match err with
        | Some _ =>
            Ret ("", errors.Join [Some ErrFailedToUploadFileFromURL; err])
        | None =>
            let* '(result, err) :=
              Upload fm buf (path.Base fileURL) (http.ContentType resp) in
            match err with
            | Some _ =>
                Ret ("", errors.Join [Some ErrFailedToUploadFileFromURL; err])
            | None => Ret (result, None)
            end
        end)
  end.

(** [UploadFromMultipartForm(r, fieldName)].  Closing the file is deferred
    and its error is only logged. *)
Definition UploadFromMultipartForm (fm : FileManager) (r : http.Request)
    (fieldName : string) : prog (string * option error) :=
  match http.ParseMultipartForm r (maxFileSize fm) with
  | Some err =>
      Ret ("", errors.Join [Some ErrFailedToUploadFileFromMultipartForm; Some err])
  | None =>
      let '((file, header), err) := http.FormFile r fieldName in
      match err with
      | Some _ =>
          Ret ("", errors.Join [Some ErrFailedToUploadFileFromMultipartForm; err])
      | None =>
          let* '(result, err) :=
            Upload fm (http.Content file)
                   (filepath.Base (http.Filename header))
                   (http.HeaderContentType header) in
          match err with
          | Some _ =>
              Ret ("", errors.Join [Some ErrFailedToUploadFileFromMultipartForm;
                                    err])
          | None => Ret (result, None)
          end
      end
  end.

(** [fileExists(ctx, filepath)]. *)
Definition fileExists (fm : FileManager) (filepath : string)
  : prog (bool * option error) :=
  let* err := withS3 fm (fun c =>
    HeadObject c {| s3.head_Bucket := bucket fm;
                    s3.head_Key := filepath |} Ret) in
  match handleS3Error err with
  | Some e =>
      if errors.Is (Some e) (Some ErrNotFound) then Ret (false, None)
      else Ret (false, errors.Join [Some ErrFailedToCheckIfFileExists; Some e])
  | None => Ret (true, None)
  end.

(** [remove(ctx, key)].  The error of [fileExists] is assigned to the
    blank identifier. *)
Definition remove (fm : FileManager) (key : string) : prog (option error) :=
  let* '(exists_, _) := fileExists fm key in
  if negb exists_ then Ret None
  else
    let* err := withS3 fm (fun c =>
      DeleteObject c {| s3.delete_Bucket := bucket fm;
                        s3.delete_Key := key |} Ret) in
    match err with
    | Some _ => Ret (errors.Join [Some ErrFailedToRemoveFile; err])
    | None => Ret None
    end.

(** [Remove(ctx, fileURL)]. *)
Definition Remove (fm : FileManager) (fileURL : string) : prog (option error) :=
  remove fm (filenameFromURL (cdnURL fm) fileURL).

(** *** errgroup

    A group holds the goroutines started by [Go] and the first non-nil
    error one of them returned ([errOnce]).  The context derived by
    [errgroup.WithContext] is discarded by the caller, so cancelling it
    reaches no task.  A goroutine is [Running] the rest of its function or
    has [Finished] with the error its function returned. *)
Inductive goroutine : Type :=
| Running (p : prog (option error))
| Finished (r : option error).

Record Group : Type := {
  routines : list goroutine;
  err : option error
}.

Definition WithContext : Group := {| routines := []; err := None |}.

(** [g.Go(f)]. *)
Definition Go (g : Group) (f : prog (option error)) : Group :=
  {| routines := routines g ++ [Running f]; err := err g |}.

(** [errOnce.Do]: the first non-nil error stays. *)
Definition once (recorded returned : option error) : option error :=
  match recorded with
  | Some _ => recorded
  | None => returned
  end.

Fixpoint update {A : Type} (l : list A) (i : nat) (x : A) : list A :=
  match l, i with
  | [], _ => []
  | _ :: rest, O => x :: rest
  | y :: rest, S i => y :: update rest i x
  end.

(** Goroutine [i] takes its next step: one call to a collaborator, or,
    when its function has returned [r], handing [r] to the group.  A
    panic in any goroutine ends the program. *)
Definition turn (i : nat) (g : Group) (w : World) : outcome Group * World :=
  match nth_error (routines g) i with
  | Some (Running (Ret r)) =>
      (Returned {| routines := update (routines g) i (Finished r);
                   err := once (err g) r |}, w)
  | Some (Running (Panic msg)) => (Panicked msg, w)
  | Some (Running p) =>
      let (p', w') := step p w in
      (Returned {| routines := update (routines g) i (Running p');
                   err := err g |}, w')
  | Some (Finished _) | None => (Returned g, w)
  end.

(** The goroutines take turns in the order the scheduler chose. *)
Fixpoint run (sched : list nat) (g : Group) (w : World) : outcome Group * World :=
  match sched with
  | [] => (Returned g, w)
  | i :: rest =>
      match turn i g w with
      | (Returned g', w') => run rest g' w'
      | (Panicked msg, w') => (Panicked msg, w')
      end
  end.

(** Every goroutine still running is run to its end. *)
Fixpoint drain (rs : list goroutine) (recorded : option error) (w : World)
  : outcome Group * World :=
  match rs with
  | [] => (Returned {| routines := []; err := recorded |}, w)
  | Finished r :: rest =>
      match drain rest recorded w with
      | (Returned g, w') =>
          (Returned {| routines := Finished r :: routines g; err := err g |}, w')
      | (Panicked msg, w') => (Panicked msg, w')
      end
  | Running p :: rest =>
      match exec p w with
      | (Returned r, w') =>
          match drain rest (once recorded r) w' with
          | (Returned g, w'') =>
              (Returned {| routines := Finished r :: routines g; err := err g |},
               w'')
          | (Panicked msg, w'') => (Panicked msg, w'')
          end
      | (Panicked msg, w') => (Panicked msg, w')
      end
  end.

(** [g.wg.Wait()]: blocks until every goroutine has returned.  [sched] is
    the order in which the runtime lets the goroutines take their steps;
    what it leaves unfinished is completed afterwards, so every [sched]
    denotes a complete execution. *)
Definition wgWait (sched : list nat) (g : Group) (w : World)
  : outcome Group * World :=
  match run sched g w with
  | (Returned g', w') => drain (routines g') (err g') w'
  | (Panicked msg, w') => (Panicked msg, w')
  end.

(** [g.Wait()]: the recorded error once all goroutines have returned. *)
Definition Wait (sched : list nat) (g : Group) (w : World)
  : outcome (option error) * World :=
  match wgWait sched g w with
  | (Returned g', w') => (Returned (err g'), w')
  | (Panicked msg, w') => (Panicked msg, w')
  end.

(** The loop of [RemoveFilesFromDirectory] that starts one goroutine per
    listed object; each closure receives its key as an argument. *)
Definition dispatch (fm : FileManager) (contents : list s3.Object) : Group :=
  fold_left (fun eg file => Go eg (remove fm (s3.Key file))) contents WithContext.

(** [RemoveFilesFromDirectory(ctx, dir)]. *)
Definition RemoveFilesFromDirectory (fm : FileManager) (dir : string)
    (sched : list nat) (w : World) : outcome (option error) * World :=
  match exec (withS3 fm (fun c =>
           ListObjectsV2 c {| s3.list_Bucket := bucket fm;
                              s3.list_Prefix := strings.Trim dir "/" |} Ret)) w
  with
  | (Panicked msg, w) => (Panicked msg, w)
  | (Returned (resp, err), w) =>
      match handleS3Error err with
      | Some e =>
          if errors.Is (Some e) (Some ErrNotFound) then (Returned None, w)
          else (Returned (errors.Join [Some ErrFailedToRemoveFiles; Some e]), w)
      | None =>
          let eg := dispatch fm (s3.Contents resp) in
          match Wait sched eg w with
          | (Returned (Some e), w) =>
              (Returned (errors.Join [Some ErrFailedToRemoveFiles; Some e]), w)
          | (Returned None, w) => (Returned None, w)
          | (Panicked msg, w) => (Panicked msg, w)
          end
      end
  end.

(** *** Options and construction *)

(** [Option]: a function that configures the file manager or fails. *)
Definition Option : Type := FileManager -> FileManager * option error.

(** [WithS3Client(client)]. *)
Definition WithS3Client (client : option S3Client) : Option := fun f =>
  match client with
  | None => (f, Some ErrMissedS3Client)
  | Some _ =>
      ({| fm_s3 := client; fm_httpClient := fm_httpClient f;
          cdnURL := cdnURL f; bucket := bucket f; basePath := basePath f;
          maxFileSize := maxFileSize f |}, None)
  end.

(** [WithCustomHTTPClient(client)]. *)
Definition WithCustomHTTPClient (client : option httpClient) : Option := fun f =>
  match client with
  | None => (f, Some ErrMissedHTTPClient)
  | Some _ =>
      ({| fm_s3 := fm_s3 f; fm_httpClient := client;
          cdnURL := cdnURL f; bucket := bucket f; basePath := basePath f;
          maxFileSize := maxFileSize f |}, None)
  end.

(** [WithBucketName(bucketName)]. *)
Definition WithBucketName (bucketName : string) : Option := fun f =>
  if String.eqb bucketName "" then (f, Some ErrMissedBucketName)
  else
    ({| fm_s3 := fm_s3 f; fm_httpClient := fm_httpClient f;
        cdnURL := cdnURL f; bucket := bucketName; basePath := basePath f;
        maxFileSize := maxFileSize f |}, None).

(** [WithCDNURL(cdnURL)]. *)
Definition WithCDNURL (url : string) : Option := fun f =>
  let url := strings.Trim url "/" in
  if String.eqb url "" then (f, Some ErrMissedCDNURL)
  else if negb (strings.HasPrefix url "http://")
          && negb (strings.HasPrefix url "https://")
  then (f, Some ErrInvalidCDNURL)
  else
    ({| fm_s3 := fm_s3 f; fm_httpClient := fm_httpClient f;
        cdnURL := url; bucket := bucket f; basePath := basePath f;
        maxFileSize := maxFileSize f |}, None).

(** [WithBasePath(basePath)]. *)
Definition WithBasePath (path : string) : Option := fun f =>
  ({| fm_s3 := fm_s3 f; fm_httpClient := fm_httpClient f;
      cdnURL := cdnURL f; bucket := bucket f;
      basePath := strings.Trim path "/";
      maxFileSize := maxFileSize f |}, None).

(** [WithMaxFileSize(maxFileSize)]. *)
Definition WithMaxFileSize (size : Z) : Option := fun f =>
  let size := if (size <=? 0)%Z then DefaultMaxFileSize else size in
  ({| fm_s3 := fm_s3 f; fm_httpClient := fm_httpClient f;
      cdnURL := cdnURL f; bucket := bucket f; basePath := basePath f;
      maxFileSize := size |}, None).

(** [http.DefaultClient]. *)
Variable DefaultClient : httpClient.

(** The loop of [NewWithOptions] that applies the options in order and
    stops at the first one that fails. *)
Fixpoint applyOptions (opt : list Option) (fm : FileManager)
  : FileManager * option error :=
  match opt with
  | [] => (fm, None)
  | o :: rest =>
      match o fm with
      | (fm, None) => applyOptions rest fm
      | (fm, Some e) => (fm, Some e)
      end
  end.

(** [NewWithOptions(opt...)]. *)
Definition NewWithOptions (opt : list Option)
  : option FileManager * option error :=
  let fm := {| fm_s3 := None; fm_httpClient := Some DefaultClient;
               cdnURL := ""; bucket := ""; basePath := "uploads";
               maxFileSize := DefaultMaxFileSize |} in
  match applyOptions opt fm with
  | (_, Some e) => (None, errors.Join [Some ErrInvalidS3ClientConfig; Some e])
  | (fm, None) =>
      if String.eqb (bucket fm) "" then
        (None, errors.Join [Some ErrInvalidS3ClientConfig; Some ErrMissedBucketName])
      else
        match fm_s3 fm with
        | None =>
            (None, errors.Join [Some ErrInvalidS3ClientConfig; Some ErrMissedS3Client])
        | Some _ =>
            if String.eqb (cdnURL fm) "" then
              (None, errors.Join [Some ErrInvalidS3ClientConfig; Some ErrMissedCDNURL])
            else (Some fm, None)
        end
  end.

(** [Config]: the fields that [New] hands to the options; the credentials,
    endpoint and region only reach the SDK session. *)
Record Config : Type := {
  CDNURL : string;
  BasePath : string;
  Bucket : string;
  MaxFileSize : Z
}.

(** [New(cnf)].  [session] is what [session.NewSession] and [s3.New]
    give for the configuration: a client, or the SDK's error. *)
Definition New (session : S3Client + error) (cnf : Config)
  : option FileManager * option error :=
  match session with
  | inr e => (None, errors.Join [Some ErrInvalidS3ClientConfig; Some e])
  | inl client =>
      NewWithOptions [WithS3Client (Some client);
                      WithBucketName (Bucket cnf);
                      WithCDNURL (CDNURL cnf);
                      WithBasePath (BasePath cnf);
                      WithMaxFileSize (MaxFileSize cnf)]
  end.

End FileManager.

Arguments Ret {St A} a.
Arguments Panic {St A} msg.
Arguments PutObject {St A} c input k.
Arguments ListObjectsV2 {St A} c input k.
Arguments HeadObject {St A} c input k.
Arguments DeleteObject {St A} c input k.
Arguments HttpGet {St A} h url k.

(** ** Test doubles *)

(** A scripted storage client in the manner of the mock of the package's
    tests: every answer is fixed per request and there is no state. *)
Module Mock.

Record script : Type := {
  onPut : s3.PutObjectInput -> option error;
  onList : s3.ListObjectsV2Input -> s3.ListObjectsV2Output * option error;
  onHead : string -> option error;
  onDelete : string -> option error
}.

Definition client (sc : script) : @S3Client unit := {|
  PutObjectWithContext := fun i s => (s, onPut sc i);
  ListObjectsV2WithContext := fun i s => (s, onList sc i);
  HeadObjectWithContext := fun i s => (s, onHead sc (s3.head_Key i));
  DeleteObjectWithContext := fun i s => (s, onDelete sc (s3.delete_Key i))
|}.

(** An HTTP client that answers every request with [resp]. *)
Definition web {St : Type} (resp : http.Response) : @httpClient St :=
  {| Get := fun _ s => (s, (resp, None)) |}.

Definition page (keys : list string) : s3.ListObjectsV2Output :=
  {| s3.Contents := map s3.Build_Object keys;
     s3.IsTruncated := false;
     s3.NextContinuationToken := None |}.

Definition start : @World unit := {| state := tt; calls := [] |}.

(** A response with the given declared length and body. *)
Definition response (length : Z) (content : list Byte.byte) : http.Response :=
  {| http.StatusCode := 200;
     http.ContentLength := length;
     http.ContentType := "text/plain";
     http.Body := fun n => (firstn n content, None) |}.

(** The values of the package's tests. *)
Definition bucketName : string := "test-bucket".
Definition cdn : string := "https://cdn.example.com".
Definition filename : string := "testfile.txt".
Definition contentType : string := "text/plain".
Definition content : list Byte.byte := [Byte.x74; Byte.x65; Byte.x73; Byte.x74].
Definition maxSize : Z := Z.shiftl 32 20.

(** The file manager the tests construct around a storage client and an
    HTTP client, with the given base path. *)
Definition manager {St : Type} (c : @S3Client St) (h : @httpClient St)
    (base : string) : @FileManager St :=
  {| fm_s3 := Some c; fm_httpClient := Some h; cdnURL := cdn;
     bucket := bucketName; basePath := base; maxFileSize := maxSize |}.

(** A store that lists [keys] under every prefix, finds every object, and
    fails every delete with an error of its own for the key. *)
Definition undeletable (keys : list string) : script :=
  {| onPut := fun _ => None;
     onList := fun _ => (page keys, None);
     onHead := fun _ => None;
     onDelete := fun key => Some (Opaque ("cannot delete " ++ key)) |}.

(** A store whose head calls fail with [herr] and whose listing fails with
    [lerr]. *)
Definition failing (herr lerr : option error) : script :=
  {| onPut := fun _ => None;
     onList := fun _ => (page [], lerr);
     onHead := fun _ => herr;
     onDelete := fun _ => None |}.

(** A store that lists [keys] under every prefix, finds every object and
    deletes what it is asked to. *)
Definition obliging (keys : list string) : script :=
  {| onPut := fun _ => None;
     onList := fun _ => (page keys, None);
     onHead := fun _ => None;
     onDelete := fun _ => None |}.

(** A parsed multipart form whose file field carries [content] under the
    filename [name]. *)
Definition form (name : string) : http.Request :=
  {| http.ParseMultipartForm := fun _ => None;
     http.FormFile := fun _ =>
       (({| http.Content := content; http.Close := None |},
         {| http.Filename := name; http.HeaderContentType := contentType |}),
        None) |}.

End Mock.

(** An in-memory object store that lists in pages of [maxKeys] keys, as an
    S3-compatible service does (the service's own limit is 1000). *)
Module MemS3.

Definition store : Type := list string.

Definition under (prefix : string) (st : store) : list string :=
  filter (fun k => strings.HasPrefix k prefix) st.

Definition client (maxKeys : nat) : @S3Client store := {|
  PutObjectWithContext := fun i st =>
    (if existsb (String.eqb (s3.put_Key i)) st then st
     else st ++ [s3.put_Key i], None);
  ListObjectsV2WithContext := fun i st =>
    let found := under (s3.list_Prefix i) st in
    let truncated := Nat.ltb maxKeys (length found) in
    (st, ({| s3.Contents := map s3.Build_Object (firstn maxKeys found);
             s3.IsTruncated := truncated;
             s3.NextContinuationToken :=
               if truncated then Some (last (firstn maxKeys found) "")
               else None |}, None));
  HeadObjectWithContext := fun i st =>
    (st, if existsb (String.eqb (s3.head_Key i)) st then None
         else Some (AwsErr "NotFound" "Not Found"));
  DeleteObjectWithContext := fun i st =>
    (filter (fun k => negb (String.eqb (s3.delete_Key i) k)) st, None)
|}.

End MemS3.

(** ** Vocabulary of the statements *)

(** The option functions the package exports.  The fields of
    [FileManager] are unexported, so no other option can set them. *)
Inductive packageOption {St : Type} : @Option St -> Prop :=
| optS3Client client : packageOption (WithS3Client client)
| optCustomHTTPClient client : packageOption (WithCustomHTTPClient client)
| optBucketName name : packageOption (WithBucketName name)
| optCDNURL url : packageOption (WithCDNURL url)
| optBasePath path : packageOption (WithBasePath path)
| optMaxFileSize size : packageOption (WithMaxFileSize size).

(** A CDN URL as construction accepts it: separators trimmed, not empty,
    with an http or https prefix. *)
Definition validCDNURL (u : string) : Prop :=
  u <> "" /\
  (exists given, u = strings.Trim given "/") /\
  (strings.HasPrefix u "http://" = true \/ strings.HasPrefix u "https://" = true).

(** The causes an option of the package can fail with. *)
Definition optionCauses : list error :=
  [ErrMissedS3Client; ErrMissedHTTPClient; ErrMissedBucketName;
   ErrMissedCDNURL; ErrInvalidCDNURL].

(** Construction failed with the invalid-configuration error joined with
    [cause]. *)
Definition rejected {St : Type} (r : option (@FileManager St) * option error)
    (cause : error) : Prop :=
  r = (None, Some (JoinErr [ErrInvalidS3ClientConfig; cause])).

(** The keys probed by the head calls of a trace, oldest first. *)
Definition probes (cs : list Call) : list string :=
  flat_map (fun call => match call with
                        | CallHead i => [s3.head_Key i]
                        | _ => []
                        end) cs.

(** The number of list calls of a trace. *)
Definition listings (cs : list Call) : nat :=
  length (filter (fun call => match call with
                              | CallList _ => true
                              | _ => false
                              end) cs).

(** The errors returned by the finished goroutines of a group: the task
    failures. *)
Definition failure {St : Type} (r : @goroutine St) : list error :=
  match r with
  | Finished (Some e) => [e]
  | _ => []
  end.

Definition failures {St : Type} (g : @Group St) : list error :=
  flat_map failure (routines g).

Definition finished {St : Type} (r : @goroutine St) : Prop :=
  match r with
  | Finished _ => True
  | Running _ => False
  end.

(** The key a goroutine is about to probe, when its next step is a head
    call. *)
Definition pending {St : Type} (r : @goroutine St) : list string :=
  match r with
  | Running (HeadObject _ i _) => [s3.head_Key i]
  | _ => []
  end.

(** A string without a separator at either end. *)
Definition trimmed (s : string) : Prop :=
  strings.HasPrefix s "/" = false /\ strings.HasSuffix s "/" = false.

(** What every option of the package keeps. *)
Definition wellFormed {St : Type} (fm : @FileManager St) : Prop :=
  trimmed (cdnURL fm) /\ trimmed (basePath fm) /\
  (0 < maxFileSize fm)%Z /\ fm_httpClient fm <> None.

(** The file manager [NewWithOptions] starts from. *)
Definition initial {St : Type} (DefaultClient : @httpClient St) : @FileManager St :=
  {| fm_s3 := None; fm_httpClient := Some DefaultClient;
     cdnURL := ""; bucket := ""; basePath := "uploads";
     maxFileSize := DefaultMaxFileSize |}.

(** A storage client whose answers to head and delete calls depend on the
    request only, not on the state of the store. *)
Definition stateless {St : Type} (c : @S3Client St) : Prop :=
  (forall i s s',
     snd (HeadObjectWithContext c i s) = snd (HeadObjectWithContext c i s')) /\
  (forall i s s',
     snd (DeleteObjectWithContext c i s) = snd (DeleteObjectWithContext c i s')).

(** What [remove] returns for a key when run on its own from [w]. *)
Definition removeAlone {St : Type} (fm : @FileManager St) (key : string)
    (w : @World St) : option error :=
  match fst (exec (remove fm key) w) with
  | Returned r => r
  | Panicked _ => None
  end.

(** A goroutine that is bound to return [r]. *)
Definition settles {St : Type} (r : option error) (g : @goroutine St) : Prop :=
  match g with
  | Running p => forall w, fst (exec p w) = Returned r
  | Finished x => x = r
  end.

(** The keys of the delete calls of a trace, oldest first. *)
Definition deletions (cs : list Call) : list string :=
  flat_map (fun call => match call with
                        | CallDelete i => [s3.delete_Key i]
                        | _ => []
                        end) cs.

(** The key a goroutine may still delete: the one of the head or delete
    call it is about to make. *)
Definition mayDelete {St : Type} (r : @goroutine St) : list string :=
  match r with
  | Running (HeadObject _ i _) => [s3.head_Key i]
  | Running (DeleteObject _ i _) => [s3.delete_Key i]
  | _ => []
  end.

(** *** Removal tasks *)

Module Tasks.
Section Tasks.

Context {St : Type}.
Variables (fm : @FileManager St) (c : @S3Client St).

(** The requests of [fileExists] and [remove] for a key. *)
Definition headInput (key : string) : s3.HeadObjectInput :=
  {| s3.head_Bucket := bucket fm; s3.head_Key := key |}.
Definition deleteInput (key : string) : s3.DeleteObjectInput :=
  {| s3.delete_Bucket := bucket fm; s3.delete_Key := key |}.
Definition listInput (dir : string) : s3.ListObjectsV2Input :=
  {| s3.list_Bucket := bucket fm; s3.list_Prefix := strings.Trim dir "/" |}.

(** What a removal task returns: nil, or the removal error joined with
    the error of the delete call. *)
Inductive removalResult : option error -> Prop :=
| removed : removalResult None
| notRemoved cause : removalResult (Some (JoinErr [ErrFailedToRemoveFile; cause])).

(** The continuation of [remove] after its delete call. *)
Definition afterDelete (k : option error -> @prog St (option error)) : Prop :=
  forall r, k r = Ret (match r with
                       | Some cause => Some (JoinErr [ErrFailedToRemoveFile; cause])
                       | None => None
                       end).

(** The stations of a removal task for [key]. *)
Inductive phase (key : string) : @goroutine St -> Prop :=
| atHead : phase key (Running (remove fm key))
| atDelete k : afterDelete k ->
    phase key (Running (DeleteObject c (deleteInput key) k))
| atReturn r : removalResult r -> phase key (Running (Ret r))
| atEnd r : removalResult r -> phase key (Finished r).

(** A call of a task for [key]: a head or a delete of that key. *)
Definition callOn (key : string) (call : Call) : Prop :=
  call = CallHead (headInput key) \/ call = CallDelete (deleteInput key).

(** A call on one of the listed keys. *)
Definition onListed (keys : list string) (call : Call) : Prop :=
  exists key, In key keys /\ callOn key call.

(** The error the group has recorded is one of the failures of its
    finished tasks, and nothing is recorded only while there is none. *)
Definition recordedFrom (recorded : option error) (rs : list (@goroutine St))
  : Prop :=
  match recorded with
  | None => flat_map failure rs = []
  | Some e => In e (flat_map failure rs)
  end.

End Tasks.
End Tasks.

(** * Properties *)

(** ** Error values *)


Lemma sentinel_eqb_refl (s : sentinel) : sentinel_eqb s s = true.
Proof. destruct s; reflexivity. Qed.

Lemma error_eqb_refl (e : error) : error_eqb e e = true.
Proof.
  induction e as [s|code message|msg|msg inner IH|errs IH] using error_ind;
    cbn.
  - apply sentinel_eqb_refl.
  - now rewrite !String.eqb_refl.
  - apply String.eqb_refl.
  - now rewrite String.eqb_refl, IH.
  - induction IH as [|x xs Hx _ IHxs]; [reflexivity|].
    now rewrite Hx, IHxs.
Qed.

Lemma is_refl (e : error) : errors.is' e e = true.
Proof. destruct e; cbn -[error_eqb]; now rewrite error_eqb_refl. Qed.

(** A joined pair reports both of its members. *)
Lemma Join_pair (a b : error) :
  errors.Join [Some a; Some b] = Some (JoinErr [a; b]).
Proof. reflexivity. Qed.

Lemma is_join_left (a b : error) : errors.is' (JoinErr [a; b]) a = true.
Proof. cbn. rewrite (is_refl a). now rewrite orb_true_r. Qed.

Lemma is_join_right (a b : error) : errors.is' (JoinErr [a; b]) b = true.
Proof. cbn. rewrite (is_refl b). now rewrite !orb_true_r. Qed.

(** ** The error translator *)

(** C4.  [handleS3Error] classifies an error by the provider error that
    [errors.As] finds in it: code ["NotFound"] gives [ErrNotFound]; any
    other code gives [ErrUnexpected] joined with the original error, which
    stays reachable; an error that holds no provider error, nil included,
    is returned unchanged. *)
Theorem handleS3Error_translates :
  (forall err code message,
      errors.As err = Some (code, message) -> code = "NotFound" ->
      handleS3Error err = Some ErrNotFound) /\
  (forall e code message,
      errors.As (Some e) = Some (code, message) -> code <> "NotFound" ->
      handleS3Error (Some e) = Some (JoinErr [ErrUnexpected; e]) /\
      errors.Is (handleS3Error (Some e)) (Some ErrUnexpected) = true /\
      errors.Is (handleS3Error (Some e)) (Some e) = true) /\
  (forall err, errors.As err = None -> handleS3Error err = err).
Proof.
  unfold handleS3Error. repeat split.
  - intros err code message H ->. now rewrite H.
  - rewrite H. apply String.eqb_neq in H0. now rewrite H0.
  - rewrite H. apply String.eqb_neq in H0. rewrite H0, Join_pair.
    apply is_join_left.
  - rewrite H. apply String.eqb_neq in H0. rewrite H0, Join_pair.
    apply is_join_right.
  - intros err H. now rewrite H.
Qed.

Lemma handleS3Error_translates_witness :
  handleS3Error (Some (AwsErr "NotFound" "Not Found")) = Some ErrNotFound /\
  handleS3Error (Some (AwsErr "AccessDenied" "Access Denied")) =
    Some (JoinErr [ErrUnexpected; AwsErr "AccessDenied" "Access Denied"]) /\
  handleS3Error (Some (Opaque "connection reset")) = Some (Opaque "connection reset").
Proof.
  destruct handleS3Error_translates as (HNotFound & HOther & HPass).
  split; [|split].
  - apply (HNotFound (Some (AwsErr "NotFound" "Not Found")) "NotFound" "Not Found");
      reflexivity.
  - apply (HOther (AwsErr "AccessDenied" "Access Denied") "AccessDenied" "Access Denied").
    + reflexivity.
    + discriminate.
  - apply (HPass (Some (Opaque "connection reset"))). reflexivity.
Defined.

(** ** Construction *)

Section Construction.

Context {St : Type}.
Variable DefaultClient : @httpClient St.

Let configured (fm : @FileManager St) : Prop :=
  cdnURL fm = "" \/ validCDNURL (cdnURL fm).

Lemma packageOption_configured (o : Option) (fm fm' : @FileManager St) :
  packageOption o -> o fm = (fm', None) -> configured fm -> configured fm'.
Proof.
  unfold configured.
  intros [client|client|name|url|path|size] Ho Hfm;
    unfold WithS3Client, WithCustomHTTPClient, WithBucketName, WithCDNURL,
      WithBasePath, WithMaxFileSize in Ho.
  - destruct client; inversion Ho; subst; exact Hfm.
  - destruct client; inversion Ho; subst; exact Hfm.
  - destruct (String.eqb name ""); inversion Ho; subst; exact Hfm.
  - destruct (String.eqb (strings.Trim url "/") "") eqn:Hempty;
      [discriminate|].
    destruct (negb (strings.HasPrefix (strings.Trim url "/") "http://")
              && negb (strings.HasPrefix (strings.Trim url "/") "https://"))
      eqn:Hprefix; inversion Ho; subst; cbn.
    right. repeat split.
    + now apply String.eqb_neq.
    + now exists url.
    + apply andb_false_iff in Hprefix.
      destruct Hprefix as [H|H]; apply negb_false_iff in H; auto.
  - inversion Ho; subst; exact Hfm.
  - inversion Ho; subst; exact Hfm.
Qed.

Lemma applyOptions_configured (opts : list Option) :
  Forall packageOption opts ->
  forall fm fm' : @FileManager St,
    applyOptions opts fm = (fm', None) -> configured fm -> configured fm'.
Proof.
  induction 1 as [|o opts Ho _ IH]; cbn; intros fm fm' Happ Hfm.
  - now inversion Happ; subst.
  - destruct (o fm) as [fm1 [e|]] eqn:Hofm; [discriminate|].
    apply (IH fm1 fm' Happ).
    exact (packageOption_configured o fm fm1 Ho Hofm Hfm).
Qed.

Lemma packageOption_cause (o : Option) (fm fm' : @FileManager St) (e : error) :
  packageOption o -> o fm = (fm', Some e) -> In e optionCauses.
Proof.
  intros [client|client|name|url|path|size] Ho;
    unfold WithS3Client, WithCustomHTTPClient, WithBucketName, WithCDNURL,
      WithBasePath, WithMaxFileSize in Ho.
  - destruct client; inversion Ho; subst; cbn; auto.
  - destruct client; inversion Ho; subst; cbn; auto.
  - destruct (String.eqb name ""); inversion Ho; subst; cbn; auto.
  - destruct (String.eqb (strings.Trim url "/") "");
      [inversion Ho; subst; cbn; auto|].
    destruct (negb (strings.HasPrefix (strings.Trim url "/") "http://")
              && negb (strings.HasPrefix (strings.Trim url "/") "https://"));
      inversion Ho; subst; cbn; auto 6.
  - inversion Ho.
  - inversion Ho.
Qed.

Lemma applyOptions_cause (opts : list Option) :
  Forall packageOption opts ->
  forall (fm fm' : @FileManager St) e,
    applyOptions opts fm = (fm', Some e) -> In e optionCauses.
Proof.
  induction 1 as [|o opts Ho _ IH]; cbn; intros fm fm' e Happ.
  - discriminate.
  - destruct (o fm) as [fm1 [e1|]] eqn:Hofm.
    + inversion Happ; subst. exact (packageOption_cause o fm fm' e Ho Hofm).
    + exact (IH _ _ _ Happ).
Qed.

(** Construction succeeds only with all three required fields present
    and a valid CDN URL. *)
Lemma NewWithOptions_accepts_only_valid (opts : list Option)
    (fm : @FileManager St) (e : option error) :
  Forall packageOption opts ->
  NewWithOptions DefaultClient opts = (Some fm, e) ->
  e = None /\ bucket fm <> "" /\ fm_s3 fm <> None /\ validCDNURL (cdnURL fm).
Proof.
  intros Hopts. unfold NewWithOptions.
  destruct (applyOptions opts _) as [fm1 [e1|]] eqn:Happ; [discriminate|].
  destruct (String.eqb (bucket fm1) "") eqn:Hbucket; [discriminate|].
  destruct (fm_s3 fm1) eqn:Hs3; [|discriminate].
  destruct (String.eqb (cdnURL fm1) "") eqn:Hcdn; [discriminate|].
  intros H; inversion H; subst.
  apply String.eqb_neq in Hbucket, Hcdn.
  split; [reflexivity|]. split; [exact Hbucket|]. split; [congruence|].
  destruct (applyOptions_configured opts Hopts _ fm Happ) as [H0|H0].
  - now left.
  - contradiction.
  - exact H0.
Qed.

(** Construction either succeeds without an error or is rejected with
    the invalid-configuration error joined with one cause. *)
Lemma NewWithOptions_outcome (opts : list Option) :
  Forall packageOption opts ->
  (exists fm, NewWithOptions DefaultClient opts = (Some fm, None)) \/
  (exists cause, In cause optionCauses /\
                 rejected (NewWithOptions DefaultClient opts) cause).
Proof.
  intros Hopts. unfold NewWithOptions, rejected.
  destruct (applyOptions opts _) as [fm1 [e1|]] eqn:Happ.
  - right. exists e1. split; [|reflexivity].
    eauto using applyOptions_cause.
  - destruct (String.eqb (bucket fm1) "").
    { right. exists ErrMissedBucketName. cbn. auto. }
    destruct (fm_s3 fm1).
    2:{ right. exists ErrMissedS3Client. cbn. auto. }
    destruct (String.eqb (cdnURL fm1) "").
    { right. exists ErrMissedCDNURL. cbn. auto 6. }
    left. now exists fm1.
Qed.

(** The options of [New], in its order. *)
Lemma NewWithOptions_table client name url path size :
  let r := NewWithOptions DefaultClient
             [WithS3Client client; WithBucketName name; WithCDNURL url;
              WithBasePath path; WithMaxFileSize size] in
  (client = None -> rejected r ErrMissedS3Client) /\
  (client <> None -> name = "" -> rejected r ErrMissedBucketName) /\
  (client <> None -> name <> "" -> strings.Trim url "/" = "" ->
   rejected r ErrMissedCDNURL) /\
  (client <> None -> name <> "" -> strings.Trim url "/" <> "" ->
   strings.HasPrefix (strings.Trim url "/") "http://" = false ->
   strings.HasPrefix (strings.Trim url "/") "https://" = false ->
   rejected r ErrInvalidCDNURL) /\
  (client <> None -> name <> "" -> validCDNURL (strings.Trim url "/") ->
   exists fm, r = (Some fm, None) /\ fm_s3 fm = client /\
              bucket fm = name /\ cdnURL fm = strings.Trim url "/").
Proof.
  intros r. subst r.
  unfold rejected, NewWithOptions, WithS3Client, WithBucketName, WithCDNURL,
    WithBasePath, WithMaxFileSize.
  repeat split.
  - intros ->. reflexivity.
  - intros Hc ->. destruct client; [reflexivity|contradiction].
  - intros Hc Hn Hu. destruct client; [|contradiction].
    apply String.eqb_neq in Hn. cbn. rewrite Hn. cbn. now rewrite Hu.
  - intros Hc Hn Hu H1 H2. destruct client; [|contradiction].
    apply String.eqb_neq in Hn, Hu. cbn. rewrite Hn. cbn.
    now rewrite Hu, H1, H2.
  - intros Hc Hn (Hu & _ & Hp). destruct client as [c|]; [|contradiction].
    apply String.eqb_neq in Hn, Hu. cbn. rewrite Hn. cbn. rewrite Hu.
    assert (Hneg : negb (strings.HasPrefix (strings.Trim url "/") "http://")
                   && negb (strings.HasPrefix (strings.Trim url "/") "https://")
                   = false).
    { destruct Hp as [-> | ->]; cbn; [reflexivity|apply andb_false_r]. }
    rewrite Hneg. cbn. rewrite Hn, Hu. eexists. repeat split.
Qed.

(** C8.  Construction from options of the package either succeeds, and
    then bucket, client and CDN URL are all present and the CDN URL is
    valid, or fails with the invalid-configuration error joined with one
    specific cause.  With the options of [New], in its order: a nil
    client is reported as the missed client, an empty bucket name as the
    missed bucket name, a CDN URL that is empty after trimming as the
    missed CDN URL, one without an http or https prefix as the invalid
    CDN URL, each when the fields checked before it are in order;
    construction succeeds exactly when all three are present and valid,
    and otherwise the cause reported is that of a defect that is present.
    An option that is not given at all is reported like an empty one. *)
Theorem NewWithOptions_validates :
  (forall opts, Forall packageOption opts ->
     (exists fm, NewWithOptions DefaultClient opts = (Some fm, None) /\
                 bucket fm <> "" /\ fm_s3 fm <> None /\
                 validCDNURL (cdnURL fm)) \/
     (exists cause, In cause (ErrMissedBucketName :: ErrMissedS3Client ::
                              ErrMissedCDNURL :: ErrInvalidCDNURL ::
                              [ErrMissedHTTPClient]) /\
                    rejected (NewWithOptions DefaultClient opts) cause)) /\
  (forall client name url path size,
     let r := NewWithOptions DefaultClient
                [WithS3Client client; WithBucketName name; WithCDNURL url;
                 WithBasePath path; WithMaxFileSize size] in
     (client = None -> rejected r ErrMissedS3Client) /\
     (client <> None -> name = "" -> rejected r ErrMissedBucketName) /\
     (client <> None -> name <> "" -> strings.Trim url "/" = "" ->
      rejected r ErrMissedCDNURL) /\
     (client <> None -> name <> "" -> strings.Trim url "/" <> "" ->
      strings.HasPrefix (strings.Trim url "/") "http://" = false ->
      strings.HasPrefix (strings.Trim url "/") "https://" = false ->
      rejected r ErrInvalidCDNURL) /\
     (client <> None -> name <> "" -> validCDNURL (strings.Trim url "/") ->
      exists fm, r = (Some fm, None) /\ fm_s3 fm = client /\
                 bucket fm = name /\ cdnURL fm = strings.Trim url "/")) /\
  (forall client name url path size,
     let r := NewWithOptions DefaultClient
                [WithS3Client client; WithBucketName name; WithCDNURL url;
                 WithBasePath path; WithMaxFileSize size] in
     (exists fm, r = (Some fm, None) /\ client <> None /\ name <> "" /\
                 validCDNURL (strings.Trim url "/")) \/
     (exists cause, rejected r cause /\
        ((cause = ErrMissedS3Client /\ client = None) \/
         (cause = ErrMissedBucketName /\ name = "") \/
         (cause = ErrMissedCDNURL /\ strings.Trim url "/" = "") \/
         (cause = ErrInvalidCDNURL /\ strings.Trim url "/" <> "" /\
          strings.HasPrefix (strings.Trim url "/") "http://" = false /\
          strings.HasPrefix (strings.Trim url "/") "https://" = false)))) /\
  (forall c name url,
     name <> "" -> validCDNURL (strings.Trim url "/") ->
     rejected (NewWithOptions DefaultClient
                 [WithS3Client (Some c); WithCDNURL url])
              ErrMissedBucketName /\
     rejected (NewWithOptions DefaultClient
                 [WithBucketName name; WithCDNURL url])
              ErrMissedS3Client /\
     rejected (NewWithOptions DefaultClient
                 [WithS3Client (Some c); WithBucketName name])
              ErrMissedCDNURL).
Proof.
  split; [|split; [|split]].
  - intros opts Hopts.
    destruct (NewWithOptions_outcome opts Hopts) as [[fm Hfm]|[cause [Hin Hrej]]].
    + left. exists fm. split; [exact Hfm|].
      now destruct (NewWithOptions_accepts_only_valid opts fm None Hopts Hfm)
        as (_ & ? & ? & ?).
    + right. exists cause. split; [|exact Hrej].
      cbn in Hin |- *. intuition.
  - exact NewWithOptions_table.
  - intros client name url path size r.
    destruct (NewWithOptions_table client name url path size)
      as (H1 & H2 & H3 & H4 & H5). fold r in H1, H2, H3, H4, H5.
    destruct client as [c|].
    2:{ right. exists ErrMissedS3Client. split; [now apply H1|now left]. }
    assert (Hc : Some c <> None) by discriminate.
    destruct (string_dec name "") as [Hn|Hn].
    { right. exists ErrMissedBucketName. split; [now apply H2|auto]. }
    destruct (string_dec (strings.Trim url "/") "") as [Hu|Hu].
    { right. exists ErrMissedCDNURL. split; [now apply H3|auto]. }
    destruct (strings.HasPrefix (strings.Trim url "/") "http://") eqn:Hp1.
    { left. destruct (H5 Hc Hn) as (fm' & Hfm & _).
      - split; [exact Hu|]. split; [now exists url|now left].
      - exists fm'. repeat split; auto. now exists url. }
    destruct (strings.HasPrefix (strings.Trim url "/") "https://") eqn:Hp2.
    { left. destruct (H5 Hc Hn) as (fm' & Hfm & _).
      - split; [exact Hu|]. split; [now exists url|now right].
      - exists fm'. repeat split; auto. now exists url. }
    right. exists ErrInvalidCDNURL. split; [now apply H4|].
    right. right. right. auto.
  - intros c name url Hn (Hu & _ & Hp).
    assert (Hneg : negb (strings.HasPrefix (strings.Trim url "/") "http://")
                   && negb (strings.HasPrefix (strings.Trim url "/") "https://")
                   = false).
    { destruct Hp as [-> | ->]; cbn; [reflexivity|apply andb_false_r]. }
    apply String.eqb_neq in Hn, Hu.
    unfold rejected, NewWithOptions, WithS3Client, WithBucketName, WithCDNURL.
    repeat split; cbn; rewrite ?Hn, ?Hu, ?Hneg; cbn; rewrite ?Hn, ?Hu;
      reflexivity.
Qed.

End Construction.

(** ** Single-object operations *)

Section Sequential.

Context {St : Type}.
Implicit Types (fm : @FileManager St) (c : @S3Client St) (w : @World St).

Lemma read_into_length body (buf : list Byte.byte) :
  length (fst (read_into body buf)) = length buf.
Proof.
  unfold read_into. destruct (body (length buf)) as [got e]. cbn [fst].
  rewrite length_firstn, length_app, length_skipn. lia.
Qed.

(** C10.  [UploadFromURL] sizes its buffer by the declared content length
    of the response, whatever its sign.  When the length is negative the
    allocation panics: the operation returns nothing, neither a URL nor an
    error, and the request to the HTTP client is the only call it has
    made.  When the length can be allocated and the body is read without
    an error, the object put to the store has exactly that many bytes. *)
Theorem UploadFromURL_negative_length_panics fm h fileURL w s resp :
  fm_httpClient fm = Some h ->
  Get h fileURL (state w) = (s, (resp, None)) ->
  ((http.ContentLength resp < 0)%Z ->
   exec (UploadFromURL fm fileURL) w =
     (Panicked "makeslice: len out of range", record (CallGet fileURL) s w) /\
   (forall r w', exec (UploadFromURL fm fileURL) w <> (Returned r, w'))) /\
  ((0 <= http.ContentLength resp <= maxAlloc)%Z ->
   forall c got,
     fm_s3 fm = Some c ->
     http.Body resp (Z.to_nat (http.ContentLength resp)) = (got, None) ->
     exists out w' body,
       exec (UploadFromURL fm fileURL) w = (Returned out, w') /\
       calls w' = calls w ++
         [CallGet fileURL;
          CallPut {| s3.put_ACL := DefaultACL; s3.put_Body := body;
                     s3.put_ContentType := http.ContentType resp;
                     s3.put_Bucket := bucket fm;
                     s3.put_Key := path.Base fileURL |}] /\
       Z.of_nat (length body) = http.ContentLength resp).
Proof.
  intros Hh Hget. split.
  - intros Hneg.
    assert (Hexec : exec (UploadFromURL fm fileURL) w =
              (Panicked "makeslice: len out of range",
               record (CallGet fileURL) s w)).
    { unfold UploadFromURL, withHTTP. rewrite Hh. cbn. rewrite Hget. cbn.
      unfold make_bytes. apply Z.ltb_lt in Hneg. now rewrite Hneg. }
    split; [exact Hexec|].
    intros r w' H. rewrite Hexec in H. discriminate.
  - intros [Hlow Hhigh] c got Hc Hbody.
    pose (buf := repeat Byte.x00 (Z.to_nat (http.ContentLength resp))).
    assert (Hlen : length buf = Z.to_nat (http.ContentLength resp))
      by apply repeat_length.
    assert (Hread : read_into (http.Body resp) buf =
                      (fst (read_into (http.Body resp) buf), None)).
    { unfold read_into. rewrite Hlen, Hbody. reflexivity. }
    unfold UploadFromURL, withHTTP. rewrite Hh. cbn. rewrite Hget. cbn.
    unfold make_bytes.
    apply Z.ltb_ge in Hlow. apply Z.ltb_ge in Hhigh. rewrite Hlow, Hhigh.
    fold buf. rewrite Hread.
    unfold Upload, withS3. rewrite Hc. cbn.
    destruct (PutObjectWithContext c _ s) as [s' perr] eqn:Hput.
    exists (match perr with
            | Some e => ("", Some (JoinErr [ErrFailedToUploadFileFromURL;
                                            JoinErr [ErrFailedToUploadFile; e]]))
            | None => (fileAbsolutePath fm (path.Base fileURL), None)
            end).
    eexists. exists (fst (read_into (http.Body resp) buf)).
    split; [|split].
    + destruct perr; cbn; reflexivity.
    + cbn. rewrite <- app_assoc. reflexivity.
    + rewrite read_into_length, Hlen. apply Z2Nat.id.
      now apply Z.ltb_ge in Hlow.
Qed.

(** The existence check reports an error that is not a missing object,
    and [remove] drops it: the removal returns nil after the single head
    call, without a delete call. *)
Lemma remove_drops_existence_error fm c key w s herr e :
  fm_s3 fm = Some c ->
  HeadObjectWithContext c {| s3.head_Bucket := bucket fm; s3.head_Key := key |}
    (state w) = (s, herr) ->
  handleS3Error herr = Some e ->
  errors.Is (Some e) (Some ErrNotFound) = false ->
  let w' := record (CallHead {| s3.head_Bucket := bucket fm;
                                s3.head_Key := key |}) s w in
  exec (fileExists fm key) w =
    (Returned (false, Some (JoinErr [ErrFailedToCheckIfFileExists; e])), w') /\
  exec (remove fm key) w = (Returned None, w').
Proof.
  intros Hc Hhead Herr Hnot w'. subst w'.
  unfold remove, fileExists, withS3. rewrite Hc. cbn.
  rewrite Hhead, Herr. cbn in Hnot |- *. rewrite Hnot. cbn. split; reflexivity.
Qed.

End Sequential.

(** ** Directory removal *)

Section DirectoryRemoval.

Context {St : Type}.
Variables (fm : @FileManager St) (c : @S3Client St).
Hypothesis Hclient : fm_s3 fm = Some c.
Implicit Types (g : @Group St) (w : @World St) (p : @prog St (option error)).

Local Abbreviation headInput := (Tasks.headInput fm).
Local Abbreviation deleteInput := (Tasks.deleteInput fm).
Local Abbreviation listInput := (Tasks.listInput fm).
Local Abbreviation removalResult := Tasks.removalResult.
Local Abbreviation afterDelete := (@Tasks.afterDelete St).
Local Abbreviation phase := (Tasks.phase fm c).
Local Abbreviation callOn := (Tasks.callOn fm).
Local Abbreviation onListed := (Tasks.onListed fm).
Local Abbreviation recordedFrom := (@Tasks.recordedFrom St).



Lemma remove_head (key : string) :
  exists k, remove fm key = HeadObject c (headInput key) k /\
    forall herr,
      k herr = Ret None \/
      exists k', k herr = DeleteObject c (deleteInput key) k' /\ afterDelete k'.
Proof.
  unfold remove, fileExists, withS3. rewrite Hclient. cbn.
  eexists. split; [reflexivity|].
  intros herr. cbn.
  destruct (handleS3Error herr) as [e|].
  - destruct (errors.is' e ErrNotFound); cbn; now left.
  - cbn. right. eexists. split; [reflexivity|].
    intros [cause|]; reflexivity.
Qed.

Lemma removalResult_afterDelete k r :
  afterDelete k -> exists x, k r = Ret x /\ removalResult x.
Proof.
  intros Hk. rewrite (Hk r). eexists. split; [reflexivity|].
  destruct r; constructor.
Qed.


(** One step of a task that is at a call. *)
Lemma step_phase key p w :
  phase key (Running p) -> ended p = false ->
  exists p' w' call,
    step p w = (p', w') /\
    phase key (Running p') /\
    calls w' = calls w ++ [call] /\ callOn key call /\
    probes [call] = pending (Running p) /\
    pending (Running p') = [].
Proof.
  intros Hphase Hrun. inversion Hphase as [Heq|k Hk Heq|r Hr Heq|]; subst.
  - destruct (remove_head key) as (k & Hrem & Hk).
    rewrite Hrem in *. cbn.
    destruct (HeadObjectWithContext c (headInput key) (state w)) as [s herr].
    exists (k herr), (record (CallHead (headInput key)) s w), (CallHead (headInput key)).
    split; [reflexivity|]. split.
    + destruct (Hk herr) as [->|(k' & -> & Hk')]; constructor; auto.
      constructor.
    + repeat split; try reflexivity.
      * now left.
      * destruct (Hk herr) as [->|(k' & -> & Hk')]; reflexivity.
  - cbn.
    destruct (DeleteObjectWithContext c (deleteInput key) (state w)) as [s derr].
    exists (k derr), (record (CallDelete (deleteInput key)) s w),
      (CallDelete (deleteInput key)).
    destruct (removalResult_afterDelete k derr Hk) as (x & Hx & Hres).
    rewrite Hx. repeat split; try reflexivity.
    + now constructor.
    + now right.
  - discriminate.
Qed.

(** A task run to its end. *)
Lemma exec_phase key p w :
  phase key (Running p) ->
  exists r w' new,
    exec p w = (Returned r, w') /\
    removalResult r /\
    calls w' = calls w ++ new /\ Forall (callOn key) new /\
    probes new = pending (Running p).
Proof.
  intros Hphase. inversion Hphase as [Heq|k Hk Heq|r Hr Heq|]; subst.
  - destruct (remove_head key) as (k & Hrem & Hk).
    rewrite Hrem in *. cbn.
    destruct (HeadObjectWithContext c (headInput key) (state w)) as [s herr].
    destruct (Hk herr) as [->|(k' & -> & Hk')]; cbn.
    + exists None, (record (CallHead (headInput key)) s w), [CallHead (headInput key)].
      repeat split; try reflexivity.
      -- constructor.
      -- constructor; [now left|constructor].
    + destruct (DeleteObjectWithContext c (deleteInput key) s) as [s' derr].
      destruct (removalResult_afterDelete k' derr Hk') as (x & Hx & Hres).
      rewrite Hx. cbn.
      exists x, (record (CallDelete (deleteInput key)) s'
                   (record (CallHead (headInput key)) s w)),
        [CallHead (headInput key); CallDelete (deleteInput key)].
      repeat split; try reflexivity; auto.
      * cbn. now rewrite <- app_assoc.
      * constructor; [now left|].
        constructor; [now right|constructor].
  - cbn.
    destruct (DeleteObjectWithContext c (deleteInput key) (state w)) as [s derr].
    destruct (removalResult_afterDelete k derr Hk) as (x & Hx & Hres).
    rewrite Hx. cbn.
    exists x, (record (CallDelete (deleteInput key)) s w),
      [CallDelete (deleteInput key)].
    repeat split; try reflexivity; auto.
    constructor; [now right|constructor].
  - cbn. exists r, w, []. repeat split; auto.
    now rewrite app_nil_r.
Qed.

(** *** The scheduler *)


Lemma update_split {A : Type} (l : list A) (i : nat) (x y : A) :
  nth_error l i = Some x ->
  exists l1 l2, l = l1 ++ x :: l2 /\ update l i y = l1 ++ y :: l2.
Proof.
  revert i. induction l as [|a l IH]; intros [|i] H; cbn in H; try discriminate.
  - inversion H; subst. now exists [], l.
  - destruct (IH i H) as (l1 & l2 & -> & Hup).
    exists (a :: l1), l2. cbn. now rewrite Hup.
Qed.

Lemma recordedFrom_step recorded l1 l2 p p' :
  recordedFrom recorded (l1 ++ Running p :: l2) ->
  recordedFrom recorded (l1 ++ Running p' :: l2).
Proof.
  unfold recordedFrom. now rewrite !flat_map_app.
Qed.

Lemma recordedFrom_finish recorded l1 l2 p r :
  recordedFrom recorded (l1 ++ Running p :: l2) ->
  recordedFrom (once recorded r) (l1 ++ Finished r :: l2).
Proof.
  unfold recordedFrom. rewrite !flat_map_app. cbn.
  destruct recorded as [e|]; cbn.
  - rewrite !in_app_iff. intros [H|H]; auto.
  - intros H. apply app_eq_nil in H. destruct H as [-> ->].
    destruct r as [e|]; cbn; auto.
Qed.

Lemma onListed_app keys1 keys2 key call :
  callOn key call -> onListed (keys1 ++ key :: keys2) call.
Proof.
  intros H. exists key. split; [|exact H].
  apply in_or_app. right. now left.
Qed.

Lemma turn_running i g w p :
  nth_error (routines g) i = Some (Running p) -> ended p = false ->
  turn i g w =
    (let (p', w') := step p w in
     (Returned {| routines := update (routines g) i (Running p');
                  err := err g |}, w')).
Proof.
  intros Hnth Hrun. unfold turn. rewrite Hnth.
  destruct p; try reflexivity; discriminate.
Qed.

Lemma ended_phase key p :
  phase key (Running p) -> ended p = true ->
  exists r, p = Ret r /\ removalResult r.
Proof.
  intros Hphase Hend. inversion Hphase as [Heq|k Hk Heq|r Hr Heq|]; subst.
  - destruct (remove_head key) as (k & Hrem & _).
    rewrite Hrem in Hend. discriminate.
  - discriminate.
  - now exists r.
Qed.

(** One turn keeps every task at a station of its own key, keeps the
    recorded error among the failures, and makes at most one call, on
    the key of the task that took the turn. *)
Lemma turn_invariant keys i g w :
  Forall2 phase keys (routines g) ->
  recordedFrom (err g) (routines g) ->
  exists g' w' new,
    turn i g w = (Returned g', w') /\
    Forall2 phase keys (routines g') /\
    recordedFrom (err g') (routines g') /\
    calls w' = calls w ++ new /\
    Forall (onListed keys) new /\
    Permutation (probes new ++ flat_map pending (routines g'))
                (flat_map pending (routines g)).
Proof.
  intros Hphases Hrec.
  destruct (nth_error (routines g) i) as [r|] eqn:Hnth.
  2:{ exists g, w, []. unfold turn. rewrite Hnth.
      repeat split; auto. now rewrite app_nil_r. }
  destruct r as [p|r].
  2:{ exists g, w, []. unfold turn. rewrite Hnth.
      repeat split; auto. now rewrite app_nil_r. }
  destruct (update_split (routines g) i (Running p) (Running p) Hnth)
    as (l1 & l2 & Hsplit & _).
  rewrite Hsplit in Hphases.
  destruct (Forall2_app_inv_r _ _ Hphases) as (k1 & k2' & Hk1 & Hk2 & ->).
  inversion Hk2 as [|key r' k2 l2' Hkey Hk2' Heq1 Heq2]; subst k2' r' l2'.
  destruct (ended p) eqn:Hend.
  - (* the function has returned: the goroutine hands over its result *)
    destruct (ended_phase key p Hkey Hend) as (r & -> & Hr).
    destruct (update_split (routines g) i (Running (Ret r)) (Finished r) Hnth)
      as (m1 & m2 & Hsplit' & Hup).
    exists {| routines := update (routines g) i (Finished r);
              err := once (err g) r |}, w, [].
    unfold turn. rewrite Hnth. cbn [routines err].
    split; [reflexivity|].
    assert (Hm : Forall2 phase (k1 ++ key :: k2) (m1 ++ Running (Ret r) :: m2)).
    { rewrite <- Hsplit'. rewrite Hsplit. apply Forall2_app; auto. }
    destruct (Forall2_app_inv_r _ _ Hm) as (j1 & j2' & Hj1 & Hj2 & Hkeys).
    inversion Hj2 as [|key' r' j2 m2' Hkey' Hj2' Heq1 Heq2]; subst j2' r' m2'.
    rewrite Hup. repeat split.
    + rewrite Hkeys. apply Forall2_app; auto.
      constructor; auto. now constructor.
    + rewrite Hsplit' in Hrec. eapply recordedFrom_finish; eauto.
    + now rewrite app_nil_r.
    + constructor.
    + cbn. rewrite Hsplit'. rewrite !flat_map_app. reflexivity.
  - (* the goroutine makes its next call *)
    destruct (step_phase key p w Hkey Hend)
      as (p' & w' & call & Hstep & Hphase' & Hcalls & Hcall & Hprobe & Hpend).
    destruct (update_split (routines g) i (Running p) (Running p') Hnth)
      as (m1 & m2 & Hsplit' & Hup).
    exists {| routines := update (routines g) i (Running p');
              err := err g |}, w', [call].
    rewrite (turn_running i g w p Hnth Hend), Hstep. cbn [routines err].
    split; [reflexivity|].
    assert (Hm : Forall2 phase (k1 ++ key :: k2) (m1 ++ Running p :: m2)).
    { rewrite <- Hsplit'. rewrite Hsplit. apply Forall2_app; auto. }
    destruct (Forall2_app_inv_r _ _ Hm) as (j1 & j2' & Hj1 & Hj2 & Hkeys).
    inversion Hj2 as [|key' r' j2 m2' Hkey' Hj2' Heq1 Heq2]; subst j2' r' m2'.
    assert (Hsame : pending (Running p) = probes [call]) by now symmetry.
    rewrite Hup. repeat split.
    + rewrite Hkeys. apply Forall2_app; auto.
      constructor; auto.
      destruct (step_phase key' p w Hkey' Hend)
        as (p2 & w2 & call2 & Hstep2 & Hphase2 & _).
      rewrite Hstep in Hstep2. now inversion Hstep2; subst.
    + rewrite Hsplit' in Hrec. eapply recordedFrom_step; eauto.
    + exact Hcalls.
    + constructor; [|constructor]. now apply onListed_app.
    + rewrite Hsplit'. rewrite !flat_map_app. cbn [flat_map].
      rewrite Hpend, Hsame. cbn [app].
      apply Permutation_app_swap_app.
Qed.

Lemma probes_app (cs1 cs2 : list Call) :
  probes (cs1 ++ cs2) = probes cs1 ++ probes cs2.
Proof. apply flat_map_app. Qed.

Lemma run_invariant keys sched :
  forall g w,
    Forall2 phase keys (routines g) ->
    recordedFrom (err g) (routines g) ->
    exists g' w' new,
      run sched g w = (Returned g', w') /\
      Forall2 phase keys (routines g') /\
      recordedFrom (err g') (routines g') /\
      calls w' = calls w ++ new /\
      Forall (onListed keys) new /\
      Permutation (probes new ++ flat_map pending (routines g'))
                  (flat_map pending (routines g)).
Proof.
  induction sched as [|i sched IH]; intros g w Hphases Hrec.
  - exists g, w, []. cbn. repeat split; auto. now rewrite app_nil_r.
  - destruct (turn_invariant keys i g w Hphases Hrec)
      as (g1 & w1 & new1 & Hturn & Hphases1 & Hrec1 & Hcalls1 & Hon1 & Hperm1).
    destruct (IH g1 w1 Hphases1 Hrec1)
      as (g2 & w2 & new2 & Hrun & Hphases2 & Hrec2 & Hcalls2 & Hon2 & Hperm2).
    exists g2, w2, (new1 ++ new2). cbn. rewrite Hturn.
    repeat split; auto.
    + now rewrite Hcalls2, Hcalls1, app_assoc.
    + apply Forall_app. now split.
    + rewrite probes_app, <- app_assoc.
      etransitivity; [|exact Hperm1].
      now apply Permutation_app_head.
Qed.

Lemma onListed_cons key keys call :
  onListed keys call -> onListed (key :: keys) call.
Proof. intros (k & Hin & Hcall). exists k. split; [now right|exact Hcall]. Qed.

(** Completing the unfinished tasks finishes all of them; [done] stands
    for the goroutines already dealt with. *)
Lemma drain_invariant :
  forall rs keys done recorded w,
    Forall2 phase keys rs ->
    recordedFrom recorded (done ++ rs) ->
    exists g' w' new,
      drain rs recorded w = (Returned g', w') /\
      Forall2 phase keys (routines g') /\
      Forall finished (routines g') /\
      recordedFrom (err g') (done ++ routines g') /\
      calls w' = calls w ++ new /\
      Forall (onListed keys) new /\
      Permutation (probes new) (flat_map pending rs).
Proof.
  induction rs as [|r rs IH]; intros keys done recorded w Hphases Hrec.
  - inversion Hphases; subst.
    exists {| routines := []; err := recorded |}, w, []. cbn.
    repeat split; auto. now rewrite app_nil_r.
  - inversion Hphases as [|key r' keys' rs' Hkey Hrest Heq1 Heq2]; subst.
    destruct r as [p|r].
    + destruct (exec_phase key p w Hkey)
        as (r & w1 & new1 & Hexec & Hres & Hcalls1 & Hon1 & Hprobe1).
      assert (Hrec1 : recordedFrom (once recorded r)
                        ((done ++ [Finished r]) ++ rs)).
      { rewrite <- app_assoc. cbn. eapply recordedFrom_finish; eauto. }
      destruct (IH keys' (done ++ [Finished r]) (once recorded r) w1 Hrest Hrec1)
        as (g2 & w2 & new2 & Hdrain & Hphases2 & Hfin2 & Hrec2 & Hcalls2
            & Hon2 & Hperm2).
      exists {| routines := Finished r :: routines g2; err := err g2 |},
        w2, (new1 ++ new2).
      cbn [drain]. rewrite Hexec, Hdrain. cbn [routines err].
      repeat split.
      * constructor; auto. now constructor.
      * constructor; [exact I|exact Hfin2].
      * now rewrite <- app_assoc in Hrec2.
      * now rewrite Hcalls2, Hcalls1, app_assoc.
      * apply Forall_app. split.
        -- eapply Forall_impl; [|exact Hon1].
           intros call Hcall. exists key. split; [now left|exact Hcall].
        -- eapply Forall_impl; [|exact Hon2].
           intros call. apply onListed_cons.
      * rewrite probes_app, Hprobe1. cbn [flat_map].
        now apply Permutation_app_head.
    + assert (Hrec1 : recordedFrom recorded ((done ++ [Finished r]) ++ rs)).
      { now rewrite <- app_assoc. }
      destruct (IH keys' (done ++ [Finished r]) recorded w Hrest Hrec1)
        as (g2 & w2 & new2 & Hdrain & Hphases2 & Hfin2 & Hrec2 & Hcalls2
            & Hon2 & Hperm2).
      exists {| routines := Finished r :: routines g2; err := err g2 |},
        w2, new2.
      cbn [drain]. rewrite Hdrain. cbn [routines err].
      repeat split; auto.
      * constructor; [exact I|exact Hfin2].
      * now rewrite <- app_assoc in Hrec2.
      * eapply Forall_impl; [|exact Hon2].
        intros call. apply onListed_cons.
Qed.

Lemma pending_finished (rs : list (@goroutine St)) :
  Forall finished rs -> flat_map pending rs = [].
Proof.
  induction 1 as [|r rs Hr _ IH]; [reflexivity|].
  destruct r; [contradiction|exact IH].
Qed.

(** The group after the dispatch loop: one goroutine per listed object,
    in the order of the listing, each about to remove the key of its
    object. *)
Lemma dispatch_routines (contents : list s3.Object) :
  dispatch fm contents =
    {| routines := map (fun file => Running (remove fm (s3.Key file))) contents;
       err := None |}.
Proof.
  unfold dispatch.
  enough (H : forall g,
             fold_left (fun eg file => Go eg (remove fm (s3.Key file))) contents g =
             {| routines := routines g ++
                  map (fun file => Running (remove fm (s3.Key file))) contents;
                err := err g |}) by apply H.
  induction contents as [|file contents IH]; intros [rs e]; cbn.
  - now rewrite app_nil_r.
  - rewrite IH. cbn. now rewrite <- app_assoc.
Qed.

Lemma dispatch_phases (contents : list s3.Object) :
  Forall2 phase (map s3.Key contents) (routines (dispatch fm contents)) /\
  recordedFrom (err (dispatch fm contents)) (routines (dispatch fm contents)) /\
  flat_map pending (routines (dispatch fm contents)) = map s3.Key contents.
Proof.
  rewrite dispatch_routines. cbn [routines err recordedFrom].
  induction contents as [|file contents (IH1 & IH2 & IH3)]; cbn.
  - repeat split. constructor.
  - repeat split.
    + constructor; [constructor|exact IH1].
    + exact IH2.
    + destruct (remove_head (s3.Key file)) as (k & -> & _). cbn.
      now rewrite IH3.
Qed.

(** Waiting for the group of a listing: all tasks finish, no goroutine
    panics, the recorded error is one of the failures, every call is a
    head or delete of a listed key, and the keys probed are the listed
    keys, each once. *)
Lemma wgWait_dispatch (contents : list s3.Object) (sched : list nat) w :
  exists g' w' new,
    wgWait sched (dispatch fm contents) w = (Returned g', w') /\
    Forall2 phase (map s3.Key contents) (routines g') /\
    Forall finished (routines g') /\
    recordedFrom (err g') (routines g') /\
    calls w' = calls w ++ new /\
    Forall (onListed (map s3.Key contents)) new /\
    Permutation (probes new) (map s3.Key contents).
Proof.
  destruct (dispatch_phases contents) as (Hphases & Hrec & Hpending).
  destruct (run_invariant _ sched _ w Hphases Hrec)
    as (g1 & w1 & new1 & Hrun & Hphases1 & Hrec1 & Hcalls1 & Hon1 & Hperm1).
  destruct (drain_invariant (routines g1) _ [] (err g1) w1 Hphases1 Hrec1)
    as (g2 & w2 & new2 & Hdrain & Hphases2 & Hfin2 & Hrec2 & Hcalls2 & Hon2
        & Hperm2).
  exists g2, w2, (new1 ++ new2). unfold wgWait. rewrite Hrun, Hdrain.
  repeat split; auto.
  - now rewrite Hcalls2, Hcalls1, app_assoc.
  - apply Forall_app. now split.
  - rewrite probes_app, <- Hpending.
    etransitivity; [|exact Hperm1].
    now apply Permutation_app_head.
Qed.

(** *** The operation *)

Lemma RemoveFilesFromDirectory_listed dir sched w s resp lerr :
  ListObjectsV2WithContext c (listInput dir) (state w) = (s, (resp, lerr)) ->
  let w1 := record (CallList (listInput dir)) s w in
  RemoveFilesFromDirectory fm dir sched w =
    match handleS3Error lerr with
    | Some e =>
        if errors.Is (Some e) (Some ErrNotFound) then (Returned None, w1)
        else (Returned (errors.Join [Some ErrFailedToRemoveFiles; Some e]), w1)
    | None =>
        match Wait sched (dispatch fm (s3.Contents resp)) w1 with
        | (Returned (Some e), w2) =>
            (Returned (errors.Join [Some ErrFailedToRemoveFiles; Some e]), w2)
        | (Returned None, w2) => (Returned None, w2)
        | (Panicked msg, w2) => (Panicked msg, w2)
        end
    end.
Proof.
  intros Hlist w1. unfold RemoveFilesFromDirectory, withS3.
  rewrite Hclient. cbn [exec]. unfold Tasks.listInput in Hlist.
  rewrite Hlist. reflexivity.
Qed.

Lemma run_nothing sched w :
  run sched {| routines := []; err := None |} w =
    (Returned {| routines := []; err := None |}, w).
Proof.
  induction sched as [|i sched IH]; [reflexivity|].
  cbn [run]. unfold turn. cbn [routines].
  now destruct i; cbn; rewrite IH.
Qed.

(** C3.  When the list call fails with an error that the translator turns
    into [ErrNotFound], or succeeds with no objects, directory removal
    returns nil; the list call is the only call it makes. *)
Theorem RemoveFilesFromDirectory_absent_is_success dir sched w s resp lerr :
  ListObjectsV2WithContext c (listInput dir) (state w) = (s, (resp, lerr)) ->
  handleS3Error lerr = Some ErrNotFound \/
  (lerr = None /\ s3.Contents resp = []) ->
  RemoveFilesFromDirectory fm dir sched w =
    (Returned None, record (CallList (listInput dir)) s w).
Proof.
  intros Hlist Hcase.
  rewrite (RemoveFilesFromDirectory_listed dir sched w s resp lerr Hlist).
  destruct Hcase as [Hnf|[-> Hempty]].
  - rewrite Hnf. reflexivity.
  - cbn [handleS3Error errors.As]. rewrite Hempty.
    unfold Wait, wgWait, dispatch. cbn [fold_left WithContext].
    unfold WithContext. rewrite run_nothing. reflexivity.
Qed.

Lemma failures_phase keys (rs : list (@goroutine St)) :
  Forall2 phase keys rs ->
  Forall (fun e => exists cause, e = JoinErr [ErrFailedToRemoveFile; cause])
         (flat_map failure rs).
Proof.
  induction 1 as [|key r keys rs Hphase _ IH]; cbn; [constructor|].
  apply Forall_app. split; [|exact IH].
  inversion Hphase as [ | | |r' Hres]; subst; cbn; try constructor.
  inversion Hres; subst; cbn; constructor; eauto.
Qed.

(** C1, as the code has it.  With the listing obtained, every schedule
    finishes one task per listed object without a panic.  When no task
    fails the operation returns nil.  When tasks fail, each failure is the
    removal error joined with the error of a delete call, and the
    operation returns [ErrFailedToRemoveFiles] joined with exactly one of
    these failures, the one the group recorded. *)
Theorem RemoveFilesFromDirectory_reports_one_failure dir sched w s resp lerr :
  ListObjectsV2WithContext c (listInput dir) (state w) = (s, (resp, lerr)) ->
  handleS3Error lerr = None ->
  exists G w',
    wgWait sched (dispatch fm (s3.Contents resp))
      (record (CallList (listInput dir)) s w) = (Returned G, w') /\
    length (routines G) = length (s3.Contents resp) /\
    Forall finished (routines G) /\
    Forall (fun e => exists cause, e = JoinErr [ErrFailedToRemoveFile; cause])
           (failures G) /\
    match failures G with
    | [] => RemoveFilesFromDirectory fm dir sched w = (Returned None, w')
    | _ :: _ =>
        exists e, In e (failures G) /\
          RemoveFilesFromDirectory fm dir sched w =
            (Returned (Some (JoinErr [ErrFailedToRemoveFiles; e])), w') /\
          errors.is' (JoinErr [ErrFailedToRemoveFiles; e]) ErrFailedToRemoveFiles
            = true /\
          errors.is' (JoinErr [ErrFailedToRemoveFiles; e]) e = true
    end.
Proof.
  intros Hlist Hnil.
  destruct (wgWait_dispatch (s3.Contents resp) sched
              (record (CallList (listInput dir)) s w))
    as (G & w' & new & Hwait & Hphases & Hfin & Hrec & _).
  exists G, w'. split; [exact Hwait|].
  split. { rewrite <- (Forall2_length Hphases). apply length_map. }
  split; [exact Hfin|].
  split. { now apply failures_phase with (keys := map s3.Key (s3.Contents resp)). }
  rewrite (RemoveFilesFromDirectory_listed dir sched w s resp lerr Hlist), Hnil.
  unfold Wait. rewrite Hwait.
  unfold Tasks.recordedFrom in Hrec. fold (failures G) in Hrec.
  destruct (err G) as [e|]; destruct (failures G) as [|e0 fs] eqn:Hf;
    try contradiction; try discriminate.
  - exists e. split; [exact Hrec|]. split; [reflexivity|].
    split; [apply is_join_left|apply is_join_right].
  - reflexivity.
Qed.

(** The calls of the operation after its list call. *)
Lemma RemoveFilesFromDirectory_trace dir sched w s resp lerr :
  ListObjectsV2WithContext c (listInput dir) (state w) = (s, (resp, lerr)) ->
  handleS3Error lerr = None ->
  exists r w' new,
    RemoveFilesFromDirectory fm dir sched w = (Returned r, w') /\
    calls w' = calls w ++ CallList (listInput dir) :: new /\
    Forall (onListed (map s3.Key (s3.Contents resp))) new /\
    Permutation (probes new) (map s3.Key (s3.Contents resp)).
Proof.
  intros Hlist Hnil.
  destruct (wgWait_dispatch (s3.Contents resp) sched
              (record (CallList (listInput dir)) s w))
    as (G & w' & new & Hwait & _ & _ & _ & Hcalls & Hon & Hperm).
  exists (match err G with
          | Some e => Some (JoinErr [ErrFailedToRemoveFiles; e])
          | None => None
          end), w', new.
  split.
  { rewrite (RemoveFilesFromDirectory_listed dir sched w s resp lerr Hlist), Hnil.
    unfold Wait. rewrite Hwait. now destruct (err G). }
  split. { rewrite Hcalls. cbn. now rewrite <- app_assoc. }
  split; [exact Hon|exact Hperm].
Qed.

(** C2.  With the listing obtained, the dispatch loop starts exactly one
    goroutine per listed object, the i-th removing the key of the i-th
    object.  Under every schedule the operation returns, each call made
    after the list call is a head or a delete of a listed key, and the keys
    probed by the head calls are the listed keys, each as often as it is
    listed: distinct listed keys are probed once each, none twice and none
    that was not listed. *)
Theorem RemoveFilesFromDirectory_one_task_per_key dir sched w s resp lerr :
  ListObjectsV2WithContext c (listInput dir) (state w) = (s, (resp, lerr)) ->
  handleS3Error lerr = None ->
  let keys := map s3.Key (s3.Contents resp) in
  routines (dispatch fm (s3.Contents resp)) =
    map (fun key => Running (remove fm key)) keys /\
  exists r w' new,
    RemoveFilesFromDirectory fm dir sched w = (Returned r, w') /\
    calls w' = calls w ++ CallList (listInput dir) :: new /\
    Forall (onListed keys) new /\
    Permutation (probes new) keys /\
    length (probes new) = length (s3.Contents resp) /\
    (NoDup keys -> NoDup (probes new)).
Proof.
  intros Hlist Hnil keys. split.
  { rewrite dispatch_routines. cbn [routines]. unfold keys.
    now rewrite map_map. }
  destruct (RemoveFilesFromDirectory_trace dir sched w s resp lerr Hlist Hnil)
    as (r & w' & new & Hrun & Hcalls & Hon & Hperm).
  exists r, w', new. repeat split; auto.
  - rewrite (Permutation_length Hperm). apply length_map.
  - intros Hnodup. eapply Permutation_NoDup; [|exact Hnodup].
    now apply Permutation_sym.
Qed.

(** Whatever the page says about further pages, the list call at the
    start is the only one. *)
Lemma RemoveFilesFromDirectory_lists_once dir sched w s resp lerr :
  ListObjectsV2WithContext c (listInput dir) (state w) = (s, (resp, lerr)) ->
  handleS3Error lerr = None ->
  exists r w',
    RemoveFilesFromDirectory fm dir sched w = (Returned r, w') /\
    listings (calls w') = S (listings (calls w)).
Proof.
  intros Hlist Hnil.
  destruct (RemoveFilesFromDirectory_trace dir sched w s resp lerr Hlist Hnil)
    as (r & w' & new & Hrun & Hcalls & Hon & _).
  exists r, w'. split; [exact Hrun|].
  rewrite Hcalls. unfold listings.
  rewrite filter_app, length_app. cbn [filter length].
  assert (Hnone : filter (fun call => match call with
                                      | CallList _ => true
                                      | _ => false
                                      end) new = []).
  { clear Hcalls. induction Hon as [|call new (key & _ & [->| ->]) _ IH];
      [reflexivity|exact IH|exact IH]. }
  rewrite Hnone. cbn. lia.
Qed.

End DirectoryRemoval.

(** ** Scenarios *)

Module Scenarios.

Import Mock.

(** The construction of the package's tests gives the file manager of the
    fixtures. *)
Lemma manager_constructed {St : Type} (c : @S3Client St) (h dc : @httpClient St) :
  NewWithOptions dc
    [WithS3Client (Some c); WithBucketName bucketName; WithCDNURL cdn;
     WithBasePath "/uploads"; WithMaxFileSize maxSize;
     WithCustomHTTPClient (Some h)] =
  (Some (manager c h "uploads"), None).
Proof. reflexivity. Qed.

(** Three listed objects whose deletes all fail: three distinct task
    failures, of which the returned error holds the first and neither of
    the other two. *)
Lemma RemoveFilesFromDirectory_aggregates_counterexample :
  let keys := ["dir/a"; "dir/b"; "dir/c"] in
  let c := client (undeletable keys) in
  let fm := manager c (web (response 0 [])) "uploads" in
  let failed key := JoinErr [ErrFailedToRemoveFile; Opaque ("cannot delete " ++ key)] in
  let reported := JoinErr [ErrFailedToRemoveFiles; failed "dir/a"] in
  exists G w',
    wgWait [] (dispatch fm (s3.Contents (page keys)))
      (record (CallList (Tasks.listInput fm "dir")) tt start) = (Returned G, w') /\
    failures G = [failed "dir/a"; failed "dir/b"; failed "dir/c"] /\
    RemoveFilesFromDirectory fm "dir" [] start = (Returned (Some reported), w') /\
    errors.Is (Some reported) (Some ErrFailedToRemoveFiles) = true /\
    errors.Is (Some reported) (Some (failed "dir/a")) = true /\
    errors.Is (Some reported) (Some (failed "dir/b")) = false /\
    errors.Is (Some reported) (Some (failed "dir/c")) = false.
Proof.
  cbv zeta. eexists. eexists.
  split; [vm_compute; reflexivity|].
  repeat split; vm_compute; reflexivity.
Qed.

Lemma RemoveFilesFromDirectory_reports_one_failure_witness :
  let keys := ["dir/a"; "dir/b"; "dir/c"] in
  let c := client (undeletable keys) in
  let fm := manager c (web (response 0 [])) "uploads" in
  fm_s3 fm = Some c /\
  ListObjectsV2WithContext c (Tasks.listInput fm "dir") (state start) =
    (tt, (page keys, None)) /\
  handleS3Error None = None /\
  exists G w',
    wgWait [2; 0; 2] (dispatch fm (s3.Contents (page keys)))
      (record (CallList (Tasks.listInput fm "dir")) tt start) = (Returned G, w') /\
    length (routines G) = length (s3.Contents (page keys)) /\
    Forall finished (routines G) /\
    Forall (fun e => exists cause, e = JoinErr [ErrFailedToRemoveFile; cause])
           (failures G) /\
    match failures G with
    | [] => RemoveFilesFromDirectory fm "dir" [2; 0; 2] start = (Returned None, w')
    | _ :: _ =>
        exists e, In e (failures G) /\
          RemoveFilesFromDirectory fm "dir" [2; 0; 2] start =
            (Returned (Some (JoinErr [ErrFailedToRemoveFiles; e])), w') /\
          errors.is' (JoinErr [ErrFailedToRemoveFiles; e]) ErrFailedToRemoveFiles
            = true /\
          errors.is' (JoinErr [ErrFailedToRemoveFiles; e]) e = true
    end.
Proof.
  cbv zeta.
  split; [reflexivity|]. split; [reflexivity|]. split; [reflexivity|].
  apply (RemoveFilesFromDirectory_reports_one_failure
           (manager (client (undeletable ["dir/a"; "dir/b"; "dir/c"]))
                    (web (response 0 [])) "uploads")
           (client (undeletable ["dir/a"; "dir/b"; "dir/c"]))
           eq_refl "dir" [2; 0; 2] start tt
           (page ["dir/a"; "dir/b"; "dir/c"]) None);
    reflexivity.
Defined.

Lemma RemoveFilesFromDirectory_one_task_per_key_witness :
  let keys := ["dir/a"; "dir/b"; "dir/c"] in
  let c := client (undeletable keys) in
  let fm := manager c (web (response 0 [])) "uploads" in
  fm_s3 fm = Some c /\
  ListObjectsV2WithContext c (Tasks.listInput fm "dir") (state start) =
    (tt, (page keys, None)) /\
  handleS3Error None = None /\
  routines (dispatch fm (s3.Contents (page keys))) =
    map (fun key => Running (remove fm key)) keys /\
  exists r w' new,
    RemoveFilesFromDirectory fm "dir" [2; 0; 2; 1] start = (Returned r, w') /\
    calls w' = calls start ++ CallList (Tasks.listInput fm "dir") :: new /\
    Forall (Tasks.onListed fm keys) new /\
    Permutation (probes new) keys /\
    length (probes new) = length (s3.Contents (page keys)) /\
    (NoDup keys -> NoDup (probes new)).
Proof.
  cbv zeta.
  split; [reflexivity|]. split; [reflexivity|]. split; [reflexivity|].
  apply (RemoveFilesFromDirectory_one_task_per_key
           (manager (client (undeletable ["dir/a"; "dir/b"; "dir/c"]))
                    (web (response 0 [])) "uploads")
           (client (undeletable ["dir/a"; "dir/b"; "dir/c"]))
           eq_refl "dir" [2; 0; 2; 1] start tt
           (page ["dir/a"; "dir/b"; "dir/c"]) None);
    reflexivity.
Defined.

Lemma RemoveFilesFromDirectory_absent_is_success_witness :
  let notFound := Some (AwsErr "NotFound" "Not Found") in
  let c := client (failing None notFound) in
  let fm := manager c (web (response 0 [])) "uploads" in
  fm_s3 fm = Some c /\
  ListObjectsV2WithContext c (Tasks.listInput fm "/never/created/") (state start) =
    (tt, (page [], notFound)) /\
  (handleS3Error notFound = Some ErrNotFound \/
   (notFound = None /\ s3.Contents (page []) = [])) /\
  RemoveFilesFromDirectory fm "/never/created/" [0; 1] start =
    (Returned None,
     record (CallList (Tasks.listInput fm "/never/created/")) tt start).
Proof.
  cbv zeta.
  split; [reflexivity|]. split; [reflexivity|]. split; [left; reflexivity|].
  apply (RemoveFilesFromDirectory_absent_is_success
           (manager (client (failing None (Some (AwsErr "NotFound" "Not Found"))))
                    (web (response 0 [])) "uploads")
           (client (failing None (Some (AwsErr "NotFound" "Not Found"))))
           eq_refl "/never/created/" [0; 1] start tt (page [])
           (Some (AwsErr "NotFound" "Not Found"))).
  - reflexivity.
  - left. reflexivity.
Defined.

(** C5, on the code.  The head call of the existence check fails with a
    transport error, or with a provider error other than not-found.
    [fileExists] reports the failure, wrapped with its cause, but [remove]
    and [Remove] return nil after that one call: the error does not reach
    the caller of the removal. *)
Theorem remove_swallows_existence_error :
  let reset := Opaque "read: connection reset by peer" in
  let denied := AwsErr "Forbidden" "Forbidden" in
  let fm herr := manager (client (failing (Some herr) None))
                         (web (response 0 [])) "uploads" in
  let probed := record (CallHead (Tasks.headInput (fm reset) filename)) tt start in
  exec (fileExists (fm reset) filename) start =
    (Returned (false, Some (JoinErr [ErrFailedToCheckIfFileExists; reset])),
     probed) /\
  exec (remove (fm reset) filename) start = (Returned None, probed) /\
  exec (Remove (fm reset) (cdn ++ "/" ++ filename)) start =
    (Returned None,
     record (CallHead (Tasks.headInput (fm reset) ("/" ++ filename))) tt start) /\
  exec (fileExists (fm denied) filename) start =
    (Returned (false, Some (JoinErr [ErrFailedToCheckIfFileExists;
                                     JoinErr [ErrUnexpected; denied]])),
     probed) /\
  exec (remove (fm denied) filename) start = (Returned None, probed).
Proof. cbv zeta. repeat split; reflexivity. Qed.

(** C6, on the code.  The upload of the tests yields the URL of the CDN,
    the base path and the key, but stripping the CDN URL from it gives the
    key with the base path and a leading separator in front, not the key
    that was stored; removing by the returned URL probes that other key
    and leaves the uploaded object in the store. *)
Theorem filenameFromURL_does_not_invert_upload :
  let fm := manager (MemS3.client 1000) (web (response 0 [])) "uploads" in
  let url := "https://cdn.example.com/uploads/testfile.txt" in
  let put := CallPut {| s3.put_ACL := DefaultACL; s3.put_Body := content;
                        s3.put_ContentType := contentType;
                        s3.put_Bucket := bucketName; s3.put_Key := filename |} in
  let stored := {| state := [filename]; calls := [put] |} in
  exec (Upload fm content filename contentType) {| state := []; calls := [] |} =
    (Returned (url, None), stored) /\
  filenameFromURL (cdnURL fm) url = "/uploads/testfile.txt" /\
  filenameFromURL (cdnURL fm) url <> filename /\
  exec (Remove fm url) stored =
    (Returned None,
     {| state := [filename];
        calls := [put; CallHead (Tasks.headInput fm "/uploads/testfile.txt")] |}).
Proof.
  cbv zeta. repeat split; try reflexivity.
  vm_compute. discriminate.
Qed.

(** C7, on the code.  A store holds three objects under the prefix and
    lists two per page.  The first page says that it is truncated; the
    operation removes the two objects of that page, makes no second list
    call, and returns nil with the third object still stored. *)
Theorem RemoveFilesFromDirectory_drops_truncated_listing :
  let fm := manager (MemS3.client 2) (web (response 0 [])) "uploads" in
  let before := {| state := ["dir/a"; "dir/b"; "dir/c"]; calls := [] |} in
  snd (ListObjectsV2WithContext (MemS3.client 2) (Tasks.listInput fm "dir")
         (state before)) =
    ({| s3.Contents := [s3.Build_Object "dir/a"; s3.Build_Object "dir/b"];
        s3.IsTruncated := true;
        s3.NextContinuationToken := Some "dir/b" |}, None) /\
  Forall (fun sched =>
            exists after,
              RemoveFilesFromDirectory fm "dir" sched before =
                (Returned None, after) /\
              state after = ["dir/c"] /\
              listings (calls after) = 1)
         [[]; [0; 1; 0; 1; 0; 1]; [1; 1; 0; 1; 0; 0]].
Proof.
  cbv zeta. split; [reflexivity|].
  repeat constructor; eexists;
    (split; [vm_compute; reflexivity|split; reflexivity]).
Qed.

(** C9, on the code.  [New] accepts a configuration whose base path is
    empty, and the upload then returns a URL with two separators between
    the CDN URL and the key. *)
Theorem fileAbsolutePath_double_slash_for_empty_base_path :
  let c := client (undeletable []) in
  let cnf := {| CDNURL := cdn; BasePath := ""; Bucket := bucketName;
                MaxFileSize := 0 |} in
  let fm := {| fm_s3 := Some c; fm_httpClient := Some (web (response 0 []));
               cdnURL := cdn; bucket := bucketName; basePath := "";
               maxFileSize := DefaultMaxFileSize |} in
  New (web (response 0 [])) (inl c) cnf = (Some fm, None) /\
  fst (exec (Upload fm content filename contentType) start) =
    Returned ("https://cdn.example.com//testfile.txt", None) /\
  strings.Contains
    (strings.TrimPrefix (fileAbsolutePath fm filename) "https://") "//" = true.
Proof. cbv zeta. repeat split; reflexivity. Qed.

Lemma NewWithOptions_validates_witness :
  let dc : @httpClient unit := web (response 0 []) in
  let c := client (undeletable []) in
  let new client name url :=
    NewWithOptions dc [WithS3Client client; WithBucketName name; WithCDNURL url;
                       WithBasePath "/uploads"; WithMaxFileSize maxSize] in
  rejected (new (Some c) "" cdn) ErrMissedBucketName /\
  rejected (new None bucketName cdn) ErrMissedS3Client /\
  rejected (new (Some c) bucketName "") ErrMissedCDNURL /\
  rejected (new (Some c) bucketName "not-a-url") ErrInvalidCDNURL /\
  (exists fm, new (Some c) bucketName cdn = (Some fm, None) /\
              fm_s3 fm = Some c /\ bucket fm = bucketName /\
              cdnURL fm = strings.Trim cdn "/") /\
  rejected (NewWithOptions dc [WithS3Client (Some c); WithCDNURL cdn])
           ErrMissedBucketName /\
  Forall (@packageOption unit)
    [WithCustomHTTPClient None; WithBucketName bucketName] /\
  ((exists fm,
      NewWithOptions dc [WithCustomHTTPClient None; WithBucketName bucketName] =
        (Some fm, None) /\
      bucket fm <> "" /\ fm_s3 fm <> None /\ validCDNURL (cdnURL fm)) \/
   (exists cause,
      In cause [ErrMissedBucketName; ErrMissedS3Client; ErrMissedCDNURL;
                ErrInvalidCDNURL; ErrMissedHTTPClient] /\
      rejected (NewWithOptions dc [WithCustomHTTPClient None;
                                   WithBucketName bucketName]) cause)).
Proof.
  cbv zeta.
  destruct (NewWithOptions_validates (web (response 0 []) : @httpClient unit))
    as (Hany & Htable & _ & Homitted).
  assert (Hopts : Forall (@packageOption unit)
                    [WithCustomHTTPClient None; WithBucketName bucketName]).
  { constructor; [constructor|]. constructor; [constructor|constructor]. }
  pose (c := client (undeletable [])).
  assert (Hvalid : validCDNURL (strings.Trim cdn "/")).
  { split; [discriminate|]. split; [now exists cdn|right; reflexivity]. }
  split; [|split; [|split; [|split; [|split; [|split; [|split]]]]]].
  8: exact (Hany _ Hopts).
  7: exact Hopts.
  - destruct (Htable (Some c) "" cdn "/uploads" maxSize) as (_ & H & _).
    apply H; [discriminate|reflexivity].
  - destruct (Htable None bucketName cdn "/uploads" maxSize) as (H & _).
    apply H. reflexivity.
  - destruct (Htable (Some c) bucketName "" "/uploads" maxSize) as (_ & _ & H & _).
    apply H; [discriminate|discriminate|reflexivity].
  - destruct (Htable (Some c) bucketName "not-a-url" "/uploads" maxSize)
      as (_ & _ & _ & H & _).
    apply H; [discriminate|discriminate|discriminate|reflexivity|reflexivity].
  - destruct (Htable (Some c) bucketName cdn "/uploads" maxSize)
      as (_ & _ & _ & _ & H).
    apply H; [discriminate|discriminate|exact Hvalid].
  - destruct (Homitted c bucketName cdn) as (H & _); [discriminate|exact Hvalid|].
    exact H.
Defined.

Lemma UploadFromURL_negative_length_panics_witness :
  let c := client (undeletable []) in
  let unknown := response (-1) content in
  let declared := response 4 content in
  let fm resp := manager c (web resp) "uploads" in
  let url := "https://example.com/testfile.txt" in
  (fm_httpClient (fm unknown) = Some (web unknown) /\
   Get (web unknown) url (state start) = (tt, (unknown, None)) /\
   (http.ContentLength unknown < 0)%Z /\
   exec (UploadFromURL (fm unknown) url) start =
     (Panicked "makeslice: len out of range", record (CallGet url) tt start) /\
   (forall r w', exec (UploadFromURL (fm unknown) url) start <> (Returned r, w'))) /\
  (fm_httpClient (fm declared) = Some (web declared) /\
   Get (web declared) url (state start) = (tt, (declared, None)) /\
   (0 <= http.ContentLength declared <= maxAlloc)%Z /\
   fm_s3 (fm declared) = Some c /\
   http.Body declared (Z.to_nat (http.ContentLength declared)) = (content, None) /\
   exists out w' body,
     exec (UploadFromURL (fm declared) url) start = (Returned out, w') /\
     calls w' = calls start ++
       [CallGet url;
        CallPut {| s3.put_ACL := DefaultACL; s3.put_Body := body;
                   s3.put_ContentType := http.ContentType declared;
                   s3.put_Bucket := bucket (fm declared);
                   s3.put_Key := path.Base url |}] /\
     Z.of_nat (length body) = http.ContentLength declared).
Proof.
  cbv zeta. split.
  - split; [reflexivity|]. split; [reflexivity|]. split; [reflexivity|].
    destruct (UploadFromURL_negative_length_panics
                (manager (client (undeletable [])) (web (response (-1) content))
                         "uploads")
                (web (response (-1) content))
                "https://example.com/testfile.txt" start tt
                (response (-1) content) eq_refl eq_refl) as (Hpanic & _).
    apply Hpanic. reflexivity.
  - split; [reflexivity|]. split; [reflexivity|].
    split; [split; discriminate|]. split; [reflexivity|]. split; [reflexivity|].
    destruct (UploadFromURL_negative_length_panics
                (manager (client (undeletable [])) (web (response 4 content))
                         "uploads")
                (web (response 4 content))
                "https://example.com/testfile.txt" start tt
                (response 4 content) eq_refl eq_refl) as (_ & Hsized).
    apply (Hsized) with (c := client (undeletable [])) (got := content);
      [split; discriminate|reflexivity|reflexivity].
Defined.

End Scenarios.

(** * Further properties *)

(** ** Strings *)

Lemma prefix_append (p s : string) : String.prefix p (p ++ s) = true.
Proof.
  induction p as [|c p IH]; cbn; [now destruct s|].
  destruct (ascii_dec c c) as [_|Hne]; [exact IH|contradiction].
Qed.

Lemma substring_all (s : string) : substring 0 (String.length s) s = s.
Proof. induction s as [|c s IH]; cbn; [reflexivity|now rewrite IH]. Qed.

Lemma TrimPrefix_append (p s : string) : strings.TrimPrefix (p ++ s) p = s.
Proof.
  unfold strings.TrimPrefix, strings.HasPrefix. rewrite prefix_append.
  induction p as [|c p IH]; cbn.
  - rewrite Nat.sub_0_r. apply substring_all.
  - exact IH.
Qed.

Lemma HasPrefix_slash (c : ascii) (s : string) :
  strings.HasPrefix (String c s) "/" = Ascii.eqb c "/"%char.
Proof.
  unfold strings.HasPrefix.
  change (prefix "/" (String c s))
    with (if ascii_dec "/"%char c then prefix "" s else false).
  destruct (ascii_dec "/"%char c) as [<-|Hne].
  - rewrite Ascii.eqb_refl. now destruct s.
  - symmetry. apply Ascii.eqb_neq. congruence.
Qed.

Lemma inCutset_slash (c : ascii) :
  strings.inCutset c "/" = Ascii.eqb c "/"%char.
Proof. cbn. apply orb_false_r. Qed.

(** What is left of a string after [TrimLeft] does not start with a
    separator. *)
Lemma TrimLeft_no_prefix (s : string) :
  strings.HasPrefix (strings.TrimLeft s "/") "/" = false.
Proof.
  induction s as [|c s IH]; [reflexivity|].
  cbn [strings.TrimLeft]. rewrite inCutset_slash.
  destruct (Ascii.eqb c "/"%char) eqn:Hc; [exact IH|].
  now rewrite HasPrefix_slash.
Qed.

(** [TrimRight] keeps the front of a string that does not start with a
    separator. *)
Lemma TrimRight_no_prefix (s : string) :
  strings.HasPrefix s "/" = false ->
  strings.HasPrefix (strings.TrimRight s "/") "/" = false.
Proof.
  destruct s as [|c s]; [reflexivity|].
  rewrite HasPrefix_slash. intros Hc. cbn [strings.TrimRight].
  destruct (strings.TrimRight s "/").
  - rewrite inCutset_slash, Hc. now rewrite HasPrefix_slash.
  - now rewrite HasPrefix_slash.
Qed.

Lemma TrimRight_no_suffix (s : string) :
  strings.HasSuffix (strings.TrimRight s "/") "/" = false.
Proof.
  induction s as [|c s IH]; [reflexivity|].
  cbn [strings.TrimRight].
  destruct (strings.TrimRight s "/") as [|d kept].
  - rewrite inCutset_slash.
    destruct (Ascii.eqb c "/"%char) eqn:Hc; [reflexivity|].
    cbn. rewrite Hc. reflexivity.
  - change (strings.HasSuffix (String c (String d kept)) "/")
      with (String.eqb (String c (String d kept)) "/"
            || strings.HasSuffix (String d kept) "/").
    rewrite IH. cbn. now destruct (Ascii.eqb c "/"%char).
Qed.

(** A string without a separator at its ends is left alone. *)
Lemma TrimLeft_fixed (s : string) :
  strings.HasPrefix s "/" = false -> strings.TrimLeft s "/" = s.
Proof.
  destruct s as [|c s]; [reflexivity|].
  rewrite HasPrefix_slash. intros Hc. cbn. now rewrite Hc.
Qed.

Lemma TrimRight_fixed (s : string) :
  strings.HasSuffix s "/" = false -> strings.TrimRight s "/" = s.
Proof.
  induction s as [|c s IH]; [reflexivity|].
  cbn [strings.HasSuffix strings.TrimRight]. intros H.
  apply orb_false_iff in H. destruct H as [Heq Hs].
  rewrite (IH Hs). destruct s as [|d s]; [|reflexivity].
  rewrite inCutset_slash.
  destruct (Ascii.eqb c "/"%char) eqn:Hc; [|reflexivity].
  apply Ascii.eqb_eq in Hc. subst c. discriminate.
Qed.

Lemma Trim_no_edges (s : string) :
  strings.HasPrefix (strings.Trim s "/") "/" = false /\
  strings.HasSuffix (strings.Trim s "/") "/" = false.
Proof.
  unfold strings.Trim. split.
  - apply TrimRight_no_prefix, TrimLeft_no_prefix.
  - apply TrimRight_no_suffix.
Qed.

Lemma Trim_fixed (s : string) :
  strings.HasPrefix s "/" = false -> strings.HasSuffix s "/" = false ->
  strings.Trim s "/" = s.
Proof.
  intros Hp Hs. unfold strings.Trim.
  now rewrite (TrimLeft_fixed s Hp), (TrimRight_fixed s Hs).
Qed.

Lemma Trim_idempotent (s : string) :
  strings.Trim (strings.Trim s "/") "/" = strings.Trim s "/".
Proof. apply Trim_fixed; apply Trim_no_edges. Qed.

Lemma TrimRight_slash (s : string) :
  strings.TrimRight (s ++ "/") "/" = strings.TrimRight s "/".
Proof.
  induction s as [|c s IH]; [reflexivity|].
  cbn [append strings.TrimRight]. now rewrite IH.
Qed.

Lemma TrimLeft_append (s t : string) :
  strings.TrimLeft s "/" <> "" ->
  strings.TrimLeft (s ++ t) "/" = (strings.TrimLeft s "/" ++ t)%string.
Proof.
  induction s as [|c s IH]; cbn [append strings.TrimLeft]; [contradiction|].
  destruct (strings.inCutset c "/"); [exact IH|reflexivity].
Qed.

(** Separators put around a string are trimmed away again. *)
Lemma Trim_slashes (s : string) :
  strings.Trim ("/" ++ s ++ "/") "/" = strings.Trim s "/".
Proof.
  unfold strings.Trim.
  change (strings.TrimLeft ("/" ++ s ++ "/") "/")
    with (strings.TrimLeft (s ++ "/") "/").
  destruct (string_dec (strings.TrimLeft s "/") "") as [He|Hne].
  - rewrite He. cbn.
    assert (H : strings.TrimLeft (s ++ "/") "/" = "").
    { clear -He. induction s as [|c s IH]; [reflexivity|].
      cbn [append strings.TrimLeft] in *.
      destruct (strings.inCutset c "/"); [now apply IH|discriminate]. }
    now rewrite H.
  - rewrite (TrimLeft_append s "/" Hne). apply TrimRight_slash.
Qed.

Lemma Contains_slash (c : ascii) (s : string) :
  strings.Contains (String c s) "/" =
    Ascii.eqb c "/"%char || strings.Contains s "/".
Proof. cbn [strings.Contains]. now rewrite HasPrefix_slash. Qed.

Lemma lastElement_no_slash (s : string) :
  strings.Contains (path.lastElement s) "/" = false.
Proof.
  induction s as [|c s IH]; [reflexivity|].
  cbn [path.lastElement].
  destruct (strings.Contains s "/") eqn:Hs; [exact IH|].
  destruct (Ascii.eqb c "/"%char) eqn:Hc; [exact Hs|].
  now rewrite Contains_slash, Hc, Hs.
Qed.

(** The last element of a path is never empty and holds no separator,
    unless the path consists of separators only. *)
Lemma Base_shape (p : string) :
  path.Base p <> "" /\
  (path.Base p = "/" \/ strings.Contains (path.Base p) "/" = false).
Proof.
  unfold path.Base.
  destruct (String.eqb p ""); [split; [discriminate|now right]|].
  destruct (String.eqb (path.lastElement (strings.TrimRight p "/")) "") eqn:He.
  - split; [discriminate|now left].
  - split; [now apply String.eqb_neq|right; apply lastElement_no_slash].
Qed.

(** ** The translator and the single-object operations, in general *)

Lemma handleS3Error_nil_iff (err : option error) :
  handleS3Error err = None <-> err = None.
Proof.
  unfold handleS3Error. destruct err as [e|]; cbn; [|tauto].
  destruct (errors.asAwsErr e) as [[code message]|].
  - destruct (String.eqb code "NotFound"); split; discriminate.
  - split; discriminate.
Qed.

Section Outcomes.

Context {St : Type}.
Variables (fm : @FileManager St) (c : @S3Client St).
Hypothesis Hclient : fm_s3 fm = Some c.
Implicit Types (w : @World St).

(** X1.  [fileExists] makes one head call for the key in the manager's
    bucket.  It reports the object as present exactly when that call
    returns no error, never together with an error; a failure that the
    translator turns into not-found gives absent without an error, a
    provider error with code NotFound among them, and every other failure
    gives absent with [ErrFailedToCheckIfFileExists] joined with the
    translated error. *)
Theorem fileExists_outcomes key w s herr :
  HeadObjectWithContext c (Tasks.headInput fm key) (state w) = (s, herr) ->
  exists found e,
    exec (fileExists fm key) w =
      (Returned (found, e), record (CallHead (Tasks.headInput fm key)) s w) /\
    (found = true <-> herr = None) /\
    (found = true -> e = None) /\
    (e = None <->
     herr = None \/ errors.Is (handleS3Error herr) (Some ErrNotFound) = true) /\
    (forall message, herr = Some (AwsErr "NotFound" message) ->
       found = false /\ e = None) /\
    (forall x, e = Some x ->
       exists cause, handleS3Error herr = Some cause /\
         x = JoinErr [ErrFailedToCheckIfFileExists; cause] /\
         errors.is' x ErrFailedToCheckIfFileExists = true /\
         errors.is' x cause = true).
Proof.
  intros Hhead. unfold fileExists, withS3. rewrite Hclient. cbn [bind exec].
  unfold Tasks.headInput in Hhead. rewrite Hhead. cbn [bind exec].
  destruct (handleS3Error herr) as [t|] eqn:Ht.
  - assert (Hherr : herr <> None).
    { intros ->. discriminate. }
    destruct (errors.Is (Some t) (Some ErrNotFound)) eqn:Hnf; cbn [exec].
    + exists false, None. split; [reflexivity|].
      repeat split; try discriminate; auto; try (intros; contradiction).
    + exists false, (Some (JoinErr [ErrFailedToCheckIfFileExists; t])).
      split; [reflexivity|].
      split; [split; [discriminate|intros H; now apply Hherr in H]|].
      split; [discriminate|].
      split; [split; [discriminate|intros [H|H]; [now apply Hherr in H|discriminate]]|].
      split.
      * intros message ->. cbn in Ht. inversion Ht; subst. discriminate.
      * intros x Hx. inversion Hx; subst. exists t.
        split; [reflexivity|]. split; [reflexivity|].
        split; [apply is_join_left|apply is_join_right].
  - apply (proj1 (handleS3Error_nil_iff herr)) in Ht. subst herr. cbn [exec].
    exists true, None. split; [reflexivity|].
    repeat split; auto; try discriminate.
Qed.

(** X2.  [remove] makes the delete call exactly when the head call of the
    existence check returned no error.  After a head call that failed, for
    whatever reason, it returns nil and nothing is deleted; after one that
    succeeded it deletes the key in the manager's bucket and returns nil,
    or [ErrFailedToRemoveFile] joined with the error of the delete. *)
Theorem remove_outcomes key w s herr :
  HeadObjectWithContext c (Tasks.headInput fm key) (state w) = (s, herr) ->
  let probed := record (CallHead (Tasks.headInput fm key)) s w in
  (herr <> None -> exec (remove fm key) w = (Returned None, probed)) /\
  (herr = None ->
   forall s' derr,
     DeleteObjectWithContext c (Tasks.deleteInput fm key) s = (s', derr) ->
     exec (remove fm key) w =
       (Returned (match derr with
                  | Some cause => Some (JoinErr [ErrFailedToRemoveFile; cause])
                  | None => None
                  end),
        record (CallDelete (Tasks.deleteInput fm key)) s' probed)).
Proof.
  intros Hhead probed. subst probed.
  unfold remove, fileExists, withS3. rewrite Hclient. cbn [bind exec].
  unfold Tasks.headInput in Hhead. rewrite Hhead. split.
  - intros Hherr.
    destruct (handleS3Error herr) as [t|] eqn:Ht.
    + cbn. now destruct (errors.is' t ErrNotFound).
    + apply (proj1 (handleS3Error_nil_iff herr)) in Ht. contradiction.
  - intros -> s' derr Hdelete. cbn.
    unfold Tasks.deleteInput in Hdelete. rewrite Hdelete.
    now destruct derr.
Qed.

(** X3.  [Upload] makes one put call: publicly readable, in the manager's
    bucket, under the filename exactly as given, without the base path and
    without trimming.  When the store refuses it returns no URL and
    [ErrFailedToUploadFile] joined with the store's error; otherwise it
    returns the public URL and no error. *)
Theorem Upload_outcomes file filename contentType w s perr :
  let input := {| s3.put_ACL := "public-read"; s3.put_Body := file;
                  s3.put_ContentType := contentType;
                  s3.put_Bucket := bucket fm; s3.put_Key := filename |} in
  PutObjectWithContext c input (state w) = (s, perr) ->
  exists url e,
    exec (Upload fm file filename contentType) w =
      (Returned (url, e), record (CallPut input) s w) /\
    (e = None <-> perr = None) /\
    (e = None ->
     url = (cdnURL fm ++ "/" ++ basePath fm ++ "/" ++ strings.Trim filename "/")%string) /\
    (forall cause, perr = Some cause ->
       url = "" /\ e = Some (JoinErr [ErrFailedToUploadFile; cause]) /\
       errors.Is e (Some ErrFailedToUploadFile) = true /\
       errors.Is e (Some cause) = true).
Proof.
  intros input Hput. subst input.
  unfold Upload, withS3. rewrite Hclient. cbn [bind exec].
  unfold DefaultACL. rewrite Hput.
  destruct perr as [cause|]; cbn [bind exec].
  - exists "", (Some (JoinErr [ErrFailedToUploadFile; cause])).
    split; [reflexivity|].
    split; [split; discriminate|]. split; [discriminate|].
    intros x Hx. inversion Hx; subst.
    split; [reflexivity|]. split; [reflexivity|].
    split; [apply is_join_left|apply is_join_right].
  - exists (fileAbsolutePath fm filename), None.
    split; [reflexivity|].
    split; [tauto|]. split; [reflexivity|discriminate].
Qed.

End Outcomes.

(** ** Upload from a URL, in general *)

Lemma skipn_repeat {A : Type} (x : A) (k n : nat) :
  skipn k (repeat x n) = repeat x (n - k).
Proof.
  revert n. induction k as [|k IH]; intros [|n]; cbn; auto.
Qed.

(** A read into a zeroed buffer: what was read, then zeros up to the
    length of the buffer. *)
Lemma read_into_zeroed body (n : nat) (got : list Byte.byte) e :
  body n = (got, e) -> length got <= n ->
  read_into body (repeat Byte.x00 n) =
    (got ++ repeat Byte.x00 (n - length got), e).
Proof.
  intros Hbody Hlen. unfold read_into.
  rewrite repeat_length, Hbody, skipn_repeat.
  rewrite firstn_all2; [reflexivity|].
  rewrite length_app, repeat_length. lia.
Qed.

Section UploadFromURL.

Context {St : Type}.
Variables (fm : @FileManager St) (c : @S3Client St) (h : @httpClient St).
Hypothesis Hclient : fm_s3 fm = Some c.
Hypothesis Hhttp : fm_httpClient fm = Some h.
Implicit Types (w : @World St).

(** Every run of [UploadFromURL]: the calls it makes and what it gives
    back. *)
Lemma UploadFromURL_run fileURL w :
  exists out w' puts,
    exec (UploadFromURL fm fileURL) w = (out, w') /\
    calls w' = calls w ++ CallGet fileURL :: puts /\
    (puts = [] \/
     exists input, puts = [CallPut input] /\
       s3.put_Key input = path.Base fileURL /\
       s3.put_Bucket input = bucket fm) /\
    match out with
    | Panicked _ => puts = []
    | Returned (url, Some e) =>
        url = "" /\ errors.is' e ErrFailedToUploadFileFromURL = true
    | Returned (url, None) =>
        url = fileAbsolutePath fm (path.Base fileURL) /\ puts <> []
    end.
Proof.
  unfold UploadFromURL, withHTTP. rewrite Hhttp. cbn [bind exec].
  destruct (Get h fileURL (state w)) as [s [resp gerr]].
  destruct gerr as [ge|]; cbn [bind exec].
  { eexists. eexists. exists []. split; [reflexivity|].
    split; [reflexivity|]. split; [now left|].
    split; [reflexivity|apply is_join_left]. }
  unfold make_bytes.
  destruct (http.ContentLength resp <? 0)%Z.
  { eexists. eexists. exists []. cbn [exec]. repeat split; auto. }
  destruct (maxAlloc <? http.ContentLength resp)%Z.
  { eexists. eexists. exists []. cbn [exec]. repeat split; auto. }
  destruct (read_into (http.Body resp) _) as [buf rerr].
  destruct rerr as [re|]; cbn [bind exec].
  { eexists. eexists. exists []. split; [reflexivity|].
    split; [reflexivity|]. split; [now left|].
    split; [reflexivity|apply is_join_left]. }
  unfold Upload, withS3. rewrite Hclient. cbn [bind exec].
  match goal with
  | |- context [PutObjectWithContext c ?i ?st] =>
      destruct (PutObjectWithContext c i st) as [s' perr]
  end.
  destruct perr as [pe|]; cbn [bind exec].
  - eexists. eexists. eexists. split; [reflexivity|].
    split; [cbn; rewrite <- app_assoc; cbn; reflexivity|].
    split; [right; eexists; repeat split|].
    split; [reflexivity|apply is_join_left].
  - eexists. eexists. eexists. split; [reflexivity|].
    split; [cbn; rewrite <- app_assoc; cbn; reflexivity|].
    split; [right; eexists; repeat split|].
    split; [reflexivity|discriminate].
Qed.


(** X5.  The key under which [UploadFromURL] puts an object is the last
    element of the source URL: it is never empty, and it holds no
    separator unless the URL consists of separators only, in which case it
    is the separator itself. *)
Theorem UploadFromURL_key fileURL w :
  exists out w' puts,
    exec (UploadFromURL fm fileURL) w = (out, w') /\
    calls w' = calls w ++ CallGet fileURL :: puts /\
    Forall (fun call =>
              exists input, call = CallPut input /\
                s3.put_Key input = path.Base fileURL /\
                s3.put_Key input <> "" /\
                (s3.put_Key input = "/" \/
                 strings.Contains (s3.put_Key input) "/" = false))
           puts.
Proof.
  destruct (UploadFromURL_run fileURL w)
    as (out & w' & puts & Hexec & Hcalls & Hputs & _).
  exists out, w', puts. split; [exact Hexec|]. split; [exact Hcalls|].
  destruct Hputs as [->|(input & -> & Hkey & _)]; constructor; [|constructor].
  exists input. split; [reflexivity|]. split; [exact Hkey|].
  rewrite Hkey. apply Base_shape.
Qed.

(** X6.  [UploadFromURL] reads the body once into a zeroed buffer of the
    declared length.  When that single read gives fewer bytes than
    declared, without an error, the object put to the store is what was
    read followed by zero bytes up to the declared length; with a declared
    length of zero the object is empty whatever the body holds. *)
Theorem UploadFromURL_single_read fileURL w s resp got :
  Get h fileURL (state w) = (s, (resp, None)) ->
  (0 <= http.ContentLength resp <= maxAlloc)%Z ->
  http.Body resp (Z.to_nat (http.ContentLength resp)) = (got, None) ->
  length got <= Z.to_nat (http.ContentLength resp) ->
  exists out w' body,
    exec (UploadFromURL fm fileURL) w = (Returned out, w') /\
    calls w' = calls w ++
      [CallGet fileURL;
       CallPut {| s3.put_ACL := DefaultACL; s3.put_Body := body;
                  s3.put_ContentType := http.ContentType resp;
                  s3.put_Bucket := bucket fm;
                  s3.put_Key := path.Base fileURL |}] /\
    body = got ++ repeat Byte.x00
                    (Z.to_nat (http.ContentLength resp) - length got) /\
    (http.ContentLength resp = 0%Z -> body = []).
Proof.
  intros Hget [Hlow Hhigh] Hbody Hlen.
  unfold UploadFromURL, withHTTP. rewrite Hhttp. cbn [bind exec].
  rewrite Hget. cbn [bind exec]. unfold make_bytes.
  apply Z.ltb_ge in Hlow. apply Z.ltb_ge in Hhigh. rewrite Hlow, Hhigh.
  rewrite (read_into_zeroed _ _ got None Hbody Hlen).
  unfold Upload, withS3. rewrite Hclient. cbn [bind exec].
  match goal with
  | |- context [PutObjectWithContext c ?i ?st] =>
      destruct (PutObjectWithContext c i st) as [s' perr]
  end.
  exists (match perr with
          | Some e => ("", Some (JoinErr [ErrFailedToUploadFileFromURL;
                                          JoinErr [ErrFailedToUploadFile; e]]))
          | None => (fileAbsolutePath fm (path.Base fileURL), None)
          end).
  eexists. eexists. split; [destruct perr; cbn; reflexivity|].
  split; [cbn; rewrite <- app_assoc; reflexivity|].
  split; [reflexivity|].
  intros Hzero. rewrite Hzero in Hlen |- *. cbn in Hlen |- *.
  destruct got; [reflexivity|cbn in Hlen; lia].
Qed.

End UploadFromURL.

(** ** Construction, in general *)

Section Configuration.

Context {St : Type}.
Variable DefaultClient : @httpClient St.
Implicit Types (fm : @FileManager St) (o : @Option St).

Lemma packageOption_wellFormed o fm fm' :
  packageOption o -> o fm = (fm', None) -> wellFormed fm -> wellFormed fm'.
Proof.
  unfold wellFormed.
  intros [client|client|name|url|path|size] Ho (Hcdn & Hbase & Hsize & Hhttp);
    unfold WithS3Client, WithCustomHTTPClient, WithBucketName, WithCDNURL,
      WithBasePath, WithMaxFileSize in Ho.
  - destruct client; inversion Ho; subst; cbn; auto.
  - destruct client; inversion Ho; subst; cbn; repeat split; auto; try apply Hcdn;
      try apply Hbase; discriminate.
  - destruct (String.eqb name ""); inversion Ho; subst; cbn; auto.
  - destruct (String.eqb (strings.Trim url "/") ""); [discriminate|].
    destruct (negb (strings.HasPrefix (strings.Trim url "/") "http://")
              && negb (strings.HasPrefix (strings.Trim url "/") "https://"));
      inversion Ho; subst; cbn.
    split; [apply Trim_no_edges|auto].
  - inversion Ho; subst; cbn.
    split; [exact Hcdn|]. split; [apply Trim_no_edges|auto].
  - inversion Ho; subst; cbn.
    split; [exact Hcdn|]. split; [exact Hbase|]. split; [|exact Hhttp].
    destruct (size <=? 0)%Z eqn:Hle; [reflexivity|].
    now apply Z.leb_gt in Hle.
Qed.

Lemma applyOptions_wellFormed (opts : list Option) :
  Forall packageOption opts ->
  forall fm fm', applyOptions opts fm = (fm', None) ->
                 wellFormed fm -> wellFormed fm'.
Proof.
  induction 1 as [|o opts Ho _ IH]; cbn; intros fm fm' Happ Hfm.
  - now inversion Happ; subst.
  - destruct (o fm) as [fm1 [e1|]] eqn:Hofm; [discriminate|].
    apply (IH fm1 fm' Happ).
    exact (packageOption_wellFormed o fm fm1 Ho Hofm Hfm).
Qed.

Lemma NewWithOptions_initial (opts : list Option) :
  NewWithOptions DefaultClient opts =
    match applyOptions opts (initial DefaultClient) with
    | (_, Some e) => (None, errors.Join [Some ErrInvalidS3ClientConfig; Some e])
    | (fm, None) =>
        if String.eqb (bucket fm) "" then
          (None, errors.Join [Some ErrInvalidS3ClientConfig;
                              Some ErrMissedBucketName])
        else
          match fm_s3 fm with
          | None =>
              (None, errors.Join [Some ErrInvalidS3ClientConfig;
                                  Some ErrMissedS3Client])
          | Some _ =>
              if String.eqb (cdnURL fm) "" then
                (None, errors.Join [Some ErrInvalidS3ClientConfig;
                                    Some ErrMissedCDNURL])
              else (Some fm, None)
          end
    end.
Proof. reflexivity. Qed.

Lemma NewWithOptions_applied (opts : list Option) fm e :
  NewWithOptions DefaultClient opts = (Some fm, e) ->
  applyOptions opts (initial DefaultClient) = (fm, None).
Proof.
  rewrite NewWithOptions_initial.
  destruct (applyOptions opts _) as [fm1 [e1|]]; [discriminate|].
  destruct (String.eqb (bucket fm1) ""); [discriminate|].
  destruct (fm_s3 fm1); [|discriminate].
  destruct (String.eqb (cdnURL fm1) ""); [discriminate|].
  now intros H; inversion H.
Qed.

(** X7.  Every file manager that construction from options of the package
    returns has a CDN URL and a base path without a separator at either
    end, a positive maximum file size, and an HTTP client. *)
Theorem NewWithOptions_keeps_wellFormed (opts : list Option) fm e :
  Forall packageOption opts ->
  NewWithOptions DefaultClient opts = (Some fm, e) ->
  trimmed (cdnURL fm) /\ trimmed (basePath fm) /\
  (0 < maxFileSize fm)%Z /\ fm_httpClient fm <> None.
Proof.
  intros Hopts Hnew. apply NewWithOptions_applied in Hnew.
  apply (applyOptions_wellFormed opts Hopts _ _ Hnew).
  repeat split; discriminate.
Qed.

(** X8.  For a file manager from construction and every filename, the
    public URL is the CDN URL, the base path and the filename without its
    leading and trailing separators, joined by one separator each; none of
    the three parts begins or ends with a separator, so each junction has
    exactly one as long as the base path and the trimmed filename are not
    empty.  Separators around the filename do not change the URL. *)
Theorem fileAbsolutePath_junctions (opts : list Option) fm e filename :
  Forall packageOption opts ->
  NewWithOptions DefaultClient opts = (Some fm, e) ->
  let name := strings.Trim filename "/" in
  fileAbsolutePath fm filename =
    (cdnURL fm ++ "/" ++ basePath fm ++ "/" ++ name)%string /\
  cdnURL fm <> "" /\ trimmed (cdnURL fm) /\
  trimmed (basePath fm) /\ trimmed name /\
  fileAbsolutePath fm name = fileAbsolutePath fm filename /\
  fileAbsolutePath fm ("/" ++ filename ++ "/") = fileAbsolutePath fm filename.
Proof.
  intros Hopts Hnew name.
  destruct (NewWithOptions_accepts_only_valid DefaultClient opts fm e Hopts Hnew)
    as (_ & _ & _ & Hcdn & _).
  apply NewWithOptions_applied in Hnew.
  destruct (applyOptions_wellFormed opts Hopts _ _ Hnew) as (Htc & Htb & _).
  { repeat split; discriminate. }
  split; [reflexivity|]. split; [exact Hcdn|]. split; [exact Htc|].
  split; [exact Htb|]. split; [apply Trim_no_edges|].
  unfold fileAbsolutePath. subst name. split.
  - now rewrite Trim_idempotent.
  - do 4 f_equal. apply Trim_slashes.
Qed.

End Configuration.

Section Order.

Context {St : Type}.
Variable DefaultClient : @httpClient St.
Implicit Types (fm : @FileManager St) (o : @Option St).

(** The loop over the options composes: the options of a second list are
    applied to what the first list left, unless one of the first failed. *)
Lemma applyOptions_app (pre post : list Option) fm :
  applyOptions (pre ++ post) fm =
    match applyOptions pre fm with
    | (fm', None) => applyOptions post fm'
    | failed => failed
    end.
Proof.
  revert fm. induction pre as [|o pre IH]; intros fm; cbn; [reflexivity|].
  destruct (o fm) as [fm1 [e|]]; [reflexivity|apply IH].
Qed.

(** X9.  The options are applied in the order given.  The first option
    that fails decides the outcome: construction is rejected with its
    error, whatever options follow.  Of several options for the same field
    the last one counts: a construction that succeeds has the bucket name,
    the trimmed CDN URL, the trimmed base path or the client of the option
    given last. *)
Theorem NewWithOptions_order (pre post : list Option) :
  (forall o fm1 fm2 e,
     applyOptions pre (initial DefaultClient) = (fm1, None) ->
     o fm1 = (fm2, Some e) ->
     rejected (NewWithOptions DefaultClient (pre ++ o :: post)) e) /\
  (forall fm e name,
     NewWithOptions DefaultClient (pre ++ [WithBucketName name]) = (Some fm, e) ->
     bucket fm = name) /\
  (forall fm e url,
     NewWithOptions DefaultClient (pre ++ [WithCDNURL url]) = (Some fm, e) ->
     cdnURL fm = strings.Trim url "/") /\
  (forall fm e path,
     NewWithOptions DefaultClient (pre ++ [WithBasePath path]) = (Some fm, e) ->
     basePath fm = strings.Trim path "/") /\
  (forall fm e client,
     NewWithOptions DefaultClient (pre ++ [WithS3Client client]) = (Some fm, e) ->
     fm_s3 fm = client).
Proof.
  split; [|split; [|split; [|split]]].
  - intros o fm1 fm2 e Hpre Ho. unfold rejected.
    rewrite NewWithOptions_initial, applyOptions_app, Hpre.
    cbn [applyOptions]. now rewrite Ho.
  - intros fm e name Hnew. apply NewWithOptions_applied in Hnew.
    rewrite applyOptions_app in Hnew.
    destruct (applyOptions pre _) as [fm1 [e1|]]; [discriminate|].
    cbn in Hnew. unfold WithBucketName in Hnew.
    destruct (String.eqb name ""); inversion Hnew; subst. reflexivity.
  - intros fm e url Hnew. apply NewWithOptions_applied in Hnew.
    rewrite applyOptions_app in Hnew.
    destruct (applyOptions pre _) as [fm1 [e1|]]; [discriminate|].
    cbn in Hnew. unfold WithCDNURL in Hnew.
    destruct (String.eqb (strings.Trim url "/") ""); [discriminate|].
    destruct (negb (strings.HasPrefix (strings.Trim url "/") "http://")
              && negb (strings.HasPrefix (strings.Trim url "/") "https://"));
      inversion Hnew; subst. reflexivity.
  - intros fm e path Hnew. apply NewWithOptions_applied in Hnew.
    rewrite applyOptions_app in Hnew.
    destruct (applyOptions pre _) as [fm1 [e1|]]; [discriminate|].
    cbn in Hnew. inversion Hnew; subst. reflexivity.
  - intros fm e client Hnew. apply NewWithOptions_applied in Hnew.
    rewrite applyOptions_app in Hnew.
    destruct (applyOptions pre _) as [fm1 [e1|]]; [discriminate|].
    cbn in Hnew. unfold WithS3Client in Hnew.
    destruct client; inversion Hnew; subst; reflexivity.
Qed.

(** X10.  [New] fails with the invalid-configuration error joined with the
    SDK's error when no session can be created.  With a session it
    succeeds exactly when the bucket name is not empty and the CDN URL,
    trimmed, is not empty and starts with http or https; the file manager
    then holds the session's client, the default HTTP client, the bucket
    name, the trimmed CDN URL, the trimmed base path of the configuration
    (empty when none is given, not the default) and the maximum file size,
    with the default in place of a size that is not positive. *)
Theorem New_outcomes (cnf : Config) :
  (forall e, rejected (New DefaultClient (inr e) cnf) e) /\
  (forall c,
     (exists fm, New DefaultClient (inl c) cnf = (Some fm, None)) <->
     Bucket cnf <> "" /\ validCDNURL (strings.Trim (CDNURL cnf) "/")) /\
  (forall c fm e,
     New DefaultClient (inl c) cnf = (Some fm, e) ->
     e = None /\
     fm = {| fm_s3 := Some c; fm_httpClient := Some DefaultClient;
             cdnURL := strings.Trim (CDNURL cnf) "/";
             bucket := Bucket cnf;
             basePath := strings.Trim (BasePath cnf) "/";
             maxFileSize := if (MaxFileSize cnf <=? 0)%Z then DefaultMaxFileSize
                            else MaxFileSize cnf |}).
Proof.
  split; [|split].
  - intros e. reflexivity.
  - intros c. unfold New.
    destruct (NewWithOptions_table DefaultClient (Some c) (Bucket cnf)
                (CDNURL cnf) (BasePath cnf) (MaxFileSize cnf))
      as (_ & Hbucket & Hmissed & Hinvalid & Hvalid).
    assert (Hc : Some c <> None) by discriminate.
    split.
    + intros (fm & Hfm).
      destruct (string_dec (Bucket cnf) "") as [Hb|Hb].
      { rewrite (Hbucket Hc Hb) in Hfm. discriminate. }
      split; [exact Hb|].
      destruct (string_dec (strings.Trim (CDNURL cnf) "/") "") as [Hu|Hu].
      { rewrite (Hmissed Hc Hb Hu) in Hfm. discriminate. }
      split; [exact Hu|]. split; [now exists (CDNURL cnf)|].
      destruct (strings.HasPrefix (strings.Trim (CDNURL cnf) "/") "http://")
        eqn:H1; [now left|].
      destruct (strings.HasPrefix (strings.Trim (CDNURL cnf) "/") "https://")
        eqn:H2; [now right|].
      rewrite (Hinvalid Hc Hb Hu eq_refl eq_refl) in Hfm. discriminate.
    + intros (Hb & Hu).
      destruct (Hvalid Hc Hb Hu) as (fm & Hfm & _). now exists fm.
  - intros c fm e. unfold New. rewrite NewWithOptions_initial.
    cbn [applyOptions]. unfold WithS3Client at 1. cbn beta iota.
    unfold WithBucketName at 1.
    destruct (String.eqb (Bucket cnf) "") eqn:Hb; [discriminate|].
    unfold WithCDNURL at 1. cbn zeta.
    destruct (String.eqb (strings.Trim (CDNURL cnf) "/") "") eqn:Hu;
      [discriminate|].
    destruct (negb (strings.HasPrefix (strings.Trim (CDNURL cnf) "/") "http://")
              && negb (strings.HasPrefix (strings.Trim (CDNURL cnf) "/") "https://"));
      [discriminate|].
    unfold WithBasePath, WithMaxFileSize, initial. cbn.
    rewrite Hb, Hu. intros H. inversion H; subst. split; reflexivity.
Qed.

End Order.

(** X11.  [filenameFromURL] takes exactly the CDN URL off the front of a
    URL that starts with it and returns any other URL unchanged.  Applied
    to the URL that [fileAbsolutePath] builds for a filename it gives a
    separator, the base path, a separator and the trimmed filename: a key
    that starts with a separator, and so never the filename itself when
    that does not start with one. *)
Theorem filenameFromURL_strips_origin {St : Type} (fm : @FileManager St)
    (filename : string) :
  (forall origin rest, filenameFromURL origin (origin ++ rest) = rest) /\
  (forall origin url,
     strings.HasPrefix url origin = false -> filenameFromURL origin url = url) /\
  filenameFromURL (cdnURL fm) (fileAbsolutePath fm filename) =
    ("/" ++ basePath fm ++ "/" ++ strings.Trim filename "/")%string /\
  (strings.HasPrefix filename "/" = false ->
   filenameFromURL (cdnURL fm) (fileAbsolutePath fm filename) <> filename).
Proof.
  assert (Hkey : filenameFromURL (cdnURL fm) (fileAbsolutePath fm filename) =
                 ("/" ++ basePath fm ++ "/" ++ strings.Trim filename "/")%string).
  { unfold filenameFromURL, fileAbsolutePath. apply TrimPrefix_append. }
  split; [|split; [|split]].
  - intros origin rest. apply TrimPrefix_append.
  - intros origin url H. unfold filenameFromURL, strings.TrimPrefix.
    now rewrite H.
  - exact Hkey.
  - intros Hno Heq. rewrite Hkey in Heq. rewrite <- Heq in Hno.
    change (strings.HasPrefix
              (String "/"%char
                 (basePath fm ++ "/" ++ strings.Trim filename "/")%string)
              "/" = false) in Hno.
    rewrite HasPrefix_slash in Hno. discriminate.
Qed.

(** ** Directory removal, further *)

Section DirectoryFurther.

Context {St : Type}.
Variables (fm : @FileManager St) (c : @S3Client St).
Hypothesis Hclient : fm_s3 fm = Some c.
Implicit Types (g : @Group St) (w : @World St) (p : @prog St (option error)).

(** X12.  When the list call fails with an error that the translator does
    not turn into not-found, directory removal returns
    [ErrFailedToRemoveFiles] joined with the translated error, which stays
    recognisable; the list call is the only call made, whatever the
    response holds. *)
Theorem RemoveFilesFromDirectory_list_failure dir sched w s resp lerr t :
  ListObjectsV2WithContext c (Tasks.listInput fm dir) (state w) =
    (s, (resp, lerr)) ->
  handleS3Error lerr = Some t ->
  errors.Is (Some t) (Some ErrNotFound) = false ->
  RemoveFilesFromDirectory fm dir sched w =
    (Returned (Some (JoinErr [ErrFailedToRemoveFiles; t])),
     record (CallList (Tasks.listInput fm dir)) s w) /\
  errors.is' (JoinErr [ErrFailedToRemoveFiles; t]) ErrFailedToRemoveFiles = true /\
  errors.is' (JoinErr [ErrFailedToRemoveFiles; t]) t = true /\
  (forall code message,
     lerr = Some (AwsErr code message) ->
     t = JoinErr [ErrUnexpected; AwsErr code message]).
Proof.
  intros Hlist Ht Hnf.
  rewrite (RemoveFilesFromDirectory_listed fm c Hclient dir sched w s resp lerr
             Hlist), Ht, Hnf.
  split; [reflexivity|]. split; [apply is_join_left|].
  split; [apply is_join_right|].
  intros code message ->. unfold handleS3Error in Ht. cbn in Ht.
  destruct (String.eqb code "NotFound").
  - inversion Ht; subst. discriminate.
  - now inversion Ht.
Qed.

End DirectoryFurther.

(** X13.  Directory removal looks only at the directory name without its
    leading and trailing separators: a name, the name trimmed and the name
    with separators put around it are one and the same request. *)
Theorem RemoveFilesFromDirectory_ignores_edge_separators {St : Type}
    (fm : @FileManager St) (dir : string) (sched : list nat) (w : @World St) :
  RemoveFilesFromDirectory fm (strings.Trim dir "/") sched w =
    RemoveFilesFromDirectory fm dir sched w /\
  RemoveFilesFromDirectory fm ("/" ++ dir ++ "/") sched w =
    RemoveFilesFromDirectory fm dir sched w /\
  trimmed (s3.list_Prefix (Tasks.listInput fm dir)).
Proof.
  unfold RemoveFilesFromDirectory.
  rewrite Trim_idempotent, Trim_slashes.
  split; [reflexivity|]. split; [reflexivity|apply Trim_no_edges].
Qed.

(** ** Directory removal on a store that answers per request *)

Lemma Forall2_update {A B : Type} (R : A -> B -> Prop) (keys : list A)
    (l : list B) (i : nat) (x y : B) :
  Forall2 R keys l -> nth_error l i = Some x ->
  (forall key, R key x -> R key y) ->
  Forall2 R keys (update l i y).
Proof.
  intros HR. revert i.
  induction HR as [|key b keys l Hb Hrest IH]; intros i Hnth Hxy.
  - destruct i; discriminate.
  - destruct i as [|i]; cbn in Hnth |- *.
    + inversion Hnth; subst. constructor; auto.
    + constructor; auto.
Qed.

Section Stateless.

Context {St : Type}.
Variables (fm : @FileManager St) (c : @S3Client St).
Hypothesis Hclient : fm_s3 fm = Some c.
Hypothesis Hstateless : stateless c.
Variable result : string -> option error.
Implicit Types (g : @Group St) (w : @World St) (p : @prog St (option error)).

Local Abbreviation phase := (Tasks.phase fm c).

(** A step of a program is the start of its run. *)
Lemma exec_step p w p' w' :
  step p w = (p', w') -> exec p w = exec p' w'.
Proof.
  destruct p; cbn; intros H;
    try (inversion H; subst; reflexivity);
    match goal with
    | H : (let (_, _) := ?call in _) = _ |- _ =>
        destruct call; inversion H; subst; reflexivity
    end.
Qed.

(** On a store that answers per request, what a removal task returns does
    not depend on the world it runs in. *)
Lemma exec_phase_anywhere key p w w' :
  phase key (Running p) -> fst (exec p w) = fst (exec p w').
Proof.
  destruct Hstateless as [Hhead Hdelete].
  assert (Hdel : forall k s s',
            Tasks.afterDelete k ->
            fst (exec (DeleteObject c (Tasks.deleteInput fm key) k) s) =
            fst (exec (DeleteObject c (Tasks.deleteInput fm key) k) s')).
  { intros k s s' Hk. cbn.
    pose proof (Hdelete (Tasks.deleteInput fm key) (state s) (state s')) as Hd.
    destruct (DeleteObjectWithContext c _ (state s)) as [s1 d1].
    destruct (DeleteObjectWithContext c _ (state s')) as [s2 d2].
    cbn in Hd. subst d2. now rewrite (Hk d1). }
  intros Hphase. inversion Hphase as [Heq|k Hk Heq|r Hr Heq|]; subst.
  - destruct (remove_head fm c Hclient key) as (k & -> & Hk). cbn.
    pose proof (Hhead (Tasks.headInput fm key) (state w) (state w')) as Hh.
    destruct (HeadObjectWithContext c _ (state w)) as [s1 h1].
    destruct (HeadObjectWithContext c _ (state w')) as [s2 h2].
    cbn in Hh. subst h2.
    destruct (Hk h1) as [->|(k' & -> & Hk')]; [reflexivity|].
    now apply Hdel.
  - now apply Hdel.
  - reflexivity.
Qed.

(** The station of a task and what it is bound to return. *)
Let bound (key : string) (r : @goroutine St) : Prop :=
  phase key r /\ settles (result key) r.

Lemma turn_bound keys i g w g' w' :
  Forall2 bound keys (routines g) ->
  turn i g w = (Returned g', w') ->
  Forall2 bound keys (routines g').
Proof.
  intros Hall Hturn.
  destruct (nth_error (routines g) i) as [r|] eqn:Hnth.
  2:{ unfold turn in Hturn. rewrite Hnth in Hturn. now inversion Hturn; subst. }
  destruct r as [p|r].
  2:{ unfold turn in Hturn. rewrite Hnth in Hturn. now inversion Hturn; subst. }
  destruct (ended p) eqn:Hend.
  - destruct p; try discriminate; unfold turn in Hturn; rewrite Hnth in Hturn;
      inversion Hturn; subst; cbn [routines].
    apply (Forall2_update bound keys _ i _ _ Hall Hnth).
    intros key [Hphase Hsettles]. split.
    + inversion Hphase as [Heq|k Hk Heq|r Hr Heq|]; subst.
      * destruct (remove_head fm c Hclient key) as (k & Hrem & _).
        rewrite Hrem in Heq. discriminate.
      * now constructor.
    + cbn in Hsettles |- *.
      specialize (Hsettles w'). now inversion Hsettles.
  - rewrite (turn_running i g w p Hnth Hend) in Hturn.
    destruct (step p w) as [p1 w1] eqn:Hstep.
    inversion Hturn; subst; cbn [routines].
    apply (Forall2_update bound keys _ i _ _ Hall Hnth).
    intros key [Hphase Hsettles].
    destruct (step_phase fm c Hclient key p w Hphase Hend)
      as (p2 & w2 & call & Hstep2 & Hphase2 & _).
    rewrite Hstep in Hstep2. inversion Hstep2; subst p2 w2.
    split; [exact Hphase2|].
    intros w0. cbn in Hsettles.
    rewrite (exec_phase_anywhere key p1 w0 w' Hphase2).
    rewrite <- (exec_step p w p1 w' Hstep). apply Hsettles.
Qed.

Lemma run_bound keys sched :
  forall g w g' w',
    Forall2 bound keys (routines g) ->
    run sched g w = (Returned g', w') ->
    Forall2 bound keys (routines g').
Proof.
  induction sched as [|i sched IH]; intros g w g' w' Hall Hrun; cbn in Hrun.
  - now inversion Hrun; subst.
  - destruct (turn i g w) as [[g1|msg] w1] eqn:Hturn; [|discriminate].
    eapply IH; [|exact Hrun].
    eapply turn_bound; eauto.
Qed.

Lemma drain_bound :
  forall rs keys recorded w g' w',
    Forall2 bound keys rs ->
    drain rs recorded w = (Returned g', w') ->
    routines g' = map (fun key => Finished (result key)) keys.
Proof.
  induction rs as [|r rs IH]; intros keys recorded w g' w' Hall Hdrain.
  - inversion Hall; subst. cbn in Hdrain. now inversion Hdrain; subst.
  - inversion Hall as [|key r' keys' rs' [Hphase Hsettles] Hrest]; subst.
    cbn [drain] in Hdrain. destruct r as [p|x].
    + destruct (exec p w) as [[x|msg] w1] eqn:Hexec; [|discriminate].
      destruct (drain rs (once recorded x) w1) as [[g1|msg] w2] eqn:Hd;
        [|discriminate].
      inversion Hdrain; subst. cbn [routines map].
      rewrite (IH keys' _ _ _ _ Hrest Hd).
      cbn in Hsettles. specialize (Hsettles w). rewrite Hexec in Hsettles.
      cbn in Hsettles. now inversion Hsettles.
    + destruct (drain rs recorded w) as [[g1|msg] w2] eqn:Hd; [|discriminate].
      inversion Hdrain; subst. cbn [routines map].
      rewrite (IH keys' _ _ _ _ Hrest Hd).
      cbn in Hsettles. now subst x.
Qed.

End Stateless.

Section StatelessRemoval.

Context {St : Type}.
Variables (fm : @FileManager St) (c : @S3Client St).
Hypothesis Hclient : fm_s3 fm = Some c.
Hypothesis Hstateless : stateless c.
Implicit Types (w : @World St).

Lemma removeAlone_settles key w :
  Tasks.phase fm c key (Running (remove fm key)) /\
  settles (removeAlone fm key w) (Running (remove fm key)).
Proof.
  split; [constructor|].
  intros w0. unfold removeAlone.
  destruct (exec_phase fm c Hclient key (remove fm key) w (Tasks.atHead fm c key))
    as (r & w1 & new & Hexec & _).
  rewrite (exec_phase_anywhere fm c Hclient Hstateless key (remove fm key) w0 w
             (Tasks.atHead fm c key)).
  now rewrite Hexec.
Qed.

Lemma failures_alone (keys : list string) w :
  flat_map (@failure St) (map (fun key => Finished (removeAlone fm key w)) keys) =
  flat_map (fun key => match removeAlone fm key w with
                       | Some e => [e]
                       | None => []
                       end) keys.
Proof.
  induction keys as [|key keys IH]; [reflexivity|].
  cbn. now rewrite IH.
Qed.


End StatelessRemoval.

(** ** How often a key is deleted *)

(** A list that holds no element more often than another is no longer. *)
Lemma occurrences_length (ds keys : list string) :
  (forall k, count_occ string_dec ds k <= count_occ string_dec keys k) ->
  length ds <= length keys.
Proof.
  revert keys. induction ds as [|d ds IH]; intros keys Hcount; [cbn; lia|].
  assert (Hd : In d keys).
  { apply (count_occ_In string_dec). specialize (Hcount d). cbn in Hcount.
    destruct (string_dec d d); [lia|contradiction]. }
  destruct (in_split _ _ Hd) as (k1 & k2 & ->).
  rewrite length_app. cbn.
  assert (Hle : length ds <= length (k1 ++ k2)).
  { apply IH. intros k. specialize (Hcount k).
    rewrite count_occ_app in Hcount |- *. cbn in Hcount.
    destruct (string_dec d k); lia. }
  rewrite length_app in Hle. lia.
Qed.

Section Deletions.

Context {St : Type}.
Variables (fm : @FileManager St) (c : @S3Client St).
Hypothesis Hclient : fm_s3 fm = Some c.
Implicit Types (g : @Group St) (w : @World St) (p : @prog St (option error)).

Local Abbreviation phase := (Tasks.phase fm c).
Local Abbreviation occurrences := (count_occ string_dec).

Lemma deletions_app (cs1 cs2 : list Call) :
  deletions (cs1 ++ cs2) = deletions cs1 ++ deletions cs2.
Proof. apply flat_map_app. Qed.

(** One call of a task deletes its key at most once, and only a task that
    may still delete. *)
Lemma step_deletes key p w p' w' :
  phase key (Running p) -> ended p = false -> step p w = (p', w') ->
  exists new,
    calls w' = calls w ++ new /\
    forall k, occurrences (deletions new) k + occurrences (mayDelete (Running p')) k
              <= occurrences (mayDelete (Running p)) k.
Proof.
  intros Hphase Hend Hstep.
  inversion Hphase as [Heq|k0 Hk Heq|r Hr Heq|]; subst.
  - destruct (remove_head fm c Hclient key) as (k0 & Hrem & Hk).
    rewrite Hrem in *. cbn in Hstep.
    destruct (HeadObjectWithContext c (Tasks.headInput fm key) (state w))
      as [s herr].
    inversion Hstep; subst. eexists. split; [reflexivity|].
    intros k. destruct (Hk herr) as [->|(k' & -> & _)]; cbn;
      destruct (string_dec key k); lia.
  - cbn in Hstep.
    destruct (DeleteObjectWithContext c (Tasks.deleteInput fm key) (state w))
      as [s derr].
    inversion Hstep; subst. eexists. split; [reflexivity|].
    intros k. rewrite (Hk derr). cbn. destruct (string_dec key k); lia.
  - discriminate.
Qed.

(** A task run to its end deletes its key at most once. *)
Lemma exec_deletes key p w r w' :
  phase key (Running p) -> exec p w = (Returned r, w') ->
  exists new,
    calls w' = calls w ++ new /\
    forall k, occurrences (deletions new) k
              <= occurrences (mayDelete (Running p)) k.
Proof.
  intros Hphase Hexec.
  inversion Hphase as [Heq|k0 Hk Heq|x Hx Heq|]; subst.
  - destruct (remove_head fm c Hclient key) as (k0 & Hrem & Hk).
    rewrite Hrem in *. cbn in Hexec.
    destruct (HeadObjectWithContext c (Tasks.headInput fm key) (state w))
      as [s herr].
    destruct (Hk herr) as [Hret|(k' & Hdel & Hk')]; rewrite ?Hret, ?Hdel in Hexec;
      cbn in Hexec.
    + inversion Hexec; subst. eexists. split; [reflexivity|].
      intros k. cbn. lia.
    + destruct (DeleteObjectWithContext c (Tasks.deleteInput fm key) s)
        as [s' derr].
      rewrite (Hk' derr) in Hexec. cbn in Hexec. inversion Hexec; subst.
      exists [CallHead (Tasks.headInput fm key);
              CallDelete (Tasks.deleteInput fm key)].
      split; [cbn; now rewrite <- app_assoc|].
      intros k. cbn. destruct (string_dec key k); lia.
  - cbn in Hexec.
    destruct (DeleteObjectWithContext c (Tasks.deleteInput fm key) (state w))
      as [s derr].
    rewrite (Hk derr) in Hexec. cbn in Hexec. inversion Hexec; subst.
    eexists. split; [reflexivity|].
    intros k. cbn. destruct (string_dec key k); lia.
  - cbn in Hexec. inversion Hexec; subst. exists []. split.
    + now rewrite app_nil_r.
    + intros k. cbn. lia.
Qed.

Lemma turn_phase keys i g w g' w' :
  Forall2 phase keys (routines g) ->
  turn i g w = (Returned g', w') ->
  Forall2 phase keys (routines g').
Proof.
  intros Hphases Hturn.
  destruct (nth_error (routines g) i) as [r|] eqn:Hnth.
  2:{ unfold turn in Hturn. rewrite Hnth in Hturn. now inversion Hturn; subst. }
  destruct r as [p|r].
  2:{ unfold turn in Hturn. rewrite Hnth in Hturn. now inversion Hturn; subst. }
  destruct (ended p) eqn:Hend.
  - destruct p; try discriminate; unfold turn in Hturn; rewrite Hnth in Hturn;
      inversion Hturn; subst; cbn [routines].
    apply (Forall2_update phase keys _ i _ _ Hphases Hnth).
    intros key Hphase.
    inversion Hphase as [Heq|k Hk Heq|r Hr Heq|]; subst.
    + destruct (remove_head fm c Hclient key) as (k & Hrem & _).
      rewrite Hrem in Heq. discriminate.
    + now constructor.
  - rewrite (turn_running i g w p Hnth Hend) in Hturn.
    destruct (step p w) as [p1 w1] eqn:Hstep.
    inversion Hturn; subst; cbn [routines].
    apply (Forall2_update phase keys _ i _ _ Hphases Hnth).
    intros key Hphase.
    destruct (step_phase fm c Hclient key p w Hphase Hend)
      as (p2 & w2 & call & Hstep2 & Hphase2 & _).
    rewrite Hstep in Hstep2. now inversion Hstep2; subst.
Qed.

Lemma turn_deletes keys i g w g' w' :
  Forall2 phase keys (routines g) ->
  turn i g w = (Returned g', w') ->
  exists new,
    calls w' = calls w ++ new /\
    forall k, occurrences (deletions new) k
              + occurrences (flat_map mayDelete (routines g')) k
              <= occurrences (flat_map mayDelete (routines g)) k.
Proof.
  intros Hphases Hturn.
  destruct (nth_error (routines g) i) as [r|] eqn:Hnth.
  2:{ unfold turn in Hturn. rewrite Hnth in Hturn. inversion Hturn; subst.
      exists []. split; [now rewrite app_nil_r|]. intros k. cbn. lia. }
  destruct r as [p|r].
  2:{ unfold turn in Hturn. rewrite Hnth in Hturn. inversion Hturn; subst.
      exists []. split; [now rewrite app_nil_r|]. intros k. cbn. lia. }
  destruct (ended p) eqn:Hend.
  - destruct p; try discriminate; unfold turn in Hturn; rewrite Hnth in Hturn;
      inversion Hturn; subst; cbn [routines].
    exists []. split; [now rewrite app_nil_r|].
    destruct (update_split (routines g) i (Running (Ret a)) (Finished a) Hnth)
      as (l1 & l2 & Hsplit & Hup).
    rewrite Hup, Hsplit. intros k.
    rewrite !flat_map_app, !count_occ_app. cbn. lia.
  - rewrite (turn_running i g w p Hnth Hend) in Hturn.
    destruct (step p w) as [p1 w1] eqn:Hstep.
    inversion Hturn; subst; cbn [routines].
    destruct (update_split (routines g) i (Running p) (Running p1) Hnth)
      as (l1 & l2 & Hsplit & Hup).
    assert (Hkey : exists key, phase key (Running p)).
    { rewrite Hsplit in Hphases.
      destruct (Forall2_app_inv_r _ _ Hphases) as (k1 & k2 & _ & Hk2 & _).
      inversion Hk2; subst. eauto. }
    destruct Hkey as (key & Hphase).
    destruct (step_deletes key p w p1 w' Hphase Hend Hstep) as (new & Hcalls & Hle).
    exists new. split; [exact Hcalls|].
    rewrite Hup, Hsplit. intros k. specialize (Hle k).
    rewrite !flat_map_app, !count_occ_app. cbn [flat_map].
    rewrite !count_occ_app. lia.
Qed.

Lemma run_phase keys sched :
  forall g w g' w',
    Forall2 phase keys (routines g) ->
    run sched g w = (Returned g', w') ->
    Forall2 phase keys (routines g').
Proof.
  induction sched as [|i sched IH]; intros g w g' w' Hphases Hrun; cbn in Hrun.
  - now inversion Hrun; subst.
  - destruct (turn i g w) as [[g1|msg] w1] eqn:Hturn; [|discriminate].
    eapply IH; [|exact Hrun]. eapply turn_phase; eauto.
Qed.

Lemma run_deletes keys sched :
  forall g w g' w',
    Forall2 phase keys (routines g) ->
    run sched g w = (Returned g', w') ->
    exists new,
      calls w' = calls w ++ new /\
      forall k, occurrences (deletions new) k
                + occurrences (flat_map mayDelete (routines g')) k
                <= occurrences (flat_map mayDelete (routines g)) k.
Proof.
  induction sched as [|i sched IH]; intros g w g' w' Hphases Hrun; cbn in Hrun.
  - inversion Hrun; subst. exists []. split; [now rewrite app_nil_r|].
    intros k. cbn. lia.
  - destruct (turn i g w) as [[g1|msg] w1] eqn:Hturn; [|discriminate].
    destruct (turn_deletes keys i g w g1 w1 Hphases Hturn) as (new1 & Hc1 & Hle1).
    pose proof (turn_phase keys i g w g1 w1 Hphases Hturn) as Hphases1.
    destruct (IH g1 w1 g' w' Hphases1 Hrun) as (new2 & Hc2 & Hle2).
    exists (new1 ++ new2). split; [now rewrite Hc2, Hc1, app_assoc|].
    intros k. specialize (Hle1 k). specialize (Hle2 k).
    rewrite deletions_app, count_occ_app. lia.
Qed.

Lemma drain_deletes :
  forall rs keys recorded w g' w',
    Forall2 phase keys rs ->
    drain rs recorded w = (Returned g', w') ->
    exists new,
      calls w' = calls w ++ new /\
      forall k, occurrences (deletions new) k
                <= occurrences (flat_map mayDelete rs) k.
Proof.
  induction rs as [|r rs IH]; intros keys recorded w g' w' Hphases Hdrain.
  - cbn in Hdrain. inversion Hdrain; subst. exists [].
    split; [now rewrite app_nil_r|]. intros k. cbn. lia.
  - inversion Hphases as [|key r' keys' rs' Hphase Hrest]; subst.
    cbn [drain] in Hdrain. destruct r as [p|x].
    + destruct (exec p w) as [[x|msg] w1] eqn:Hexec; [|discriminate].
      destruct (drain rs (once recorded x) w1) as [[g1|msg] w2] eqn:Hd;
        [|discriminate].
      inversion Hdrain; subst.
      destruct (exec_deletes key p w x w1 Hphase Hexec) as (new1 & Hc1 & Hle1).
      destruct (IH keys' _ _ _ _ Hrest Hd) as (new2 & Hc2 & Hle2).
      exists (new1 ++ new2). split; [now rewrite Hc2, Hc1, app_assoc|].
      intros k. specialize (Hle1 k). specialize (Hle2 k).
      rewrite deletions_app. cbn [flat_map]. rewrite !count_occ_app. lia.
    + destruct (drain rs recorded w) as [[g1|msg] w2] eqn:Hd; [|discriminate].
      inversion Hdrain; subst.
      destruct (IH keys' _ _ _ _ Hrest Hd) as (new2 & Hc2 & Hle2).
      exists new2. split; [exact Hc2|].
      intros k. specialize (Hle2 k). cbn [flat_map mayDelete app]. exact Hle2.
Qed.

Lemma mayDelete_dispatch (contents : list s3.Object) :
  flat_map mayDelete (routines (dispatch fm contents)) = map s3.Key contents.
Proof.
  rewrite (dispatch_routines fm). cbn [routines].
  induction contents as [|file contents IH]; [reflexivity|].
  cbn. destruct (remove_head fm c Hclient (s3.Key file)) as (k & -> & _).
  cbn. now rewrite IH.
Qed.

(** X15.  Directory removal deletes no key more often than the listing
    names it: with distinct listed keys every object is deleted at most
    once, and every key deleted is a listed key.  This holds under every
    schedule and for every store. *)
Theorem RemoveFilesFromDirectory_deletes_at_most_once
    dir sched w s resp lerr :
  ListObjectsV2WithContext c (Tasks.listInput fm dir) (state w) =
    (s, (resp, lerr)) ->
  handleS3Error lerr = None ->
  let keys := map s3.Key (s3.Contents resp) in
  exists r w' new,
    RemoveFilesFromDirectory fm dir sched w = (Returned r, w') /\
    calls w' = calls w ++ CallList (Tasks.listInput fm dir) :: new /\
    (forall k, count_occ string_dec (deletions new) k
               <= count_occ string_dec keys k) /\
    (forall k, In k (deletions new) -> In k keys) /\
    length (deletions new) <= length keys /\
    (NoDup keys -> NoDup (deletions new)).
Proof.
  intros Hlist Hnil keys.
  destruct (RemoveFilesFromDirectory_trace fm c Hclient dir sched w s resp lerr
              Hlist Hnil) as (r & w' & new & Hrun & Hcalls & _).
  exists r, w', new. split; [exact Hrun|]. split; [exact Hcalls|].
  assert (Hcount : forall k, count_occ string_dec (deletions new) k
                             <= count_occ string_dec keys k).
  { rewrite (RemoveFilesFromDirectory_listed fm c Hclient dir sched w s resp lerr
               Hlist), Hnil in Hrun.
    unfold Wait, wgWait in Hrun.
    destruct (dispatch_phases fm c Hclient (s3.Contents resp)) as (Hphases & _).
    destruct (run sched _ _) as [[g1|msg] w1] eqn:Hsched; [|discriminate].
    destruct (drain (routines g1) (err g1) w1) as [[g2|msg] w2] eqn:Hdrain;
      [|discriminate].
    assert (Hw : w2 = w') by (destruct (err g2); now inversion Hrun).
    subst w2.
    destruct (run_deletes _ sched _ _ _ _ Hphases Hsched) as (new1 & Hc1 & Hle1).
    pose proof (run_phase _ sched _ _ _ _ Hphases Hsched) as Hphases1.
    destruct (drain_deletes _ _ _ _ _ _ Hphases1 Hdrain) as (new2 & Hc2 & Hle2).
    assert (Hnew : new = new1 ++ new2).
    { rewrite Hc2, Hc1 in Hcalls. cbn [calls record] in Hcalls.
      rewrite <- !app_assoc in Hcalls. apply app_inv_head in Hcalls.
      cbn in Hcalls. now inversion Hcalls. }
    subst new. intros k. specialize (Hle1 k). specialize (Hle2 k).
    rewrite mayDelete_dispatch in Hle1. fold keys in Hle1.
    rewrite deletions_app, count_occ_app. lia. }
  split; [exact Hcount|].
  assert (Hin : forall k, In k (deletions new) -> In k keys).
  { intros k Hk. apply (count_occ_In string_dec) in Hk.
    apply (count_occ_In string_dec). specialize (Hcount k). lia. }
  split; [exact Hin|]. split.
  - now apply occurrences_length.
  - intros Hnodup. apply (NoDup_count_occ string_dec). intros k.
    apply (NoDup_count_occ string_dec) with (x := k) in Hnodup.
    specialize (Hcount k). lia.
Qed.

End Deletions.

(** ** Upload from a multipart form *)

Section Multipart.

Context {St : Type}.
Variables (fm : @FileManager St) (c : @S3Client St).
Hypothesis Hclient : fm_s3 fm = Some c.
Implicit Types (w : @World St).


End Multipart.

(** ** The two revisions of the translator *)

Lemma error_not_joined_with_itself (e x : error) : e <> JoinErr [x; e].
Proof.
  revert x.
  induction e as [s|code message|msg|msg inner IH|errs IH] using error_ind;
    intros x H; try discriminate.
  inversion H as [Herrs].
  rewrite Herrs in IH.
  inversion IH as [|? ? _ Hrest]; subst.
  inversion Hrest as [|? ? Hself _]; subst.
  apply (Hself x). now rewrite <- Herrs.
Qed.

(** X17.  The two revisions of [handleS3Error] agree on every error that
    is itself a provider error and on every error that holds none, nil
    included.  On an error that wraps a provider error they differ: the
    revision with the type assertion returns it unchanged, the revision
    with [errors.As] translates it by the code of the provider error
    inside. *)
Theorem handleS3Error_revisions (err : option error) :
  (forall code message,
     err = Some (AwsErr code message) ->
     handleS3ErrorAsserted err = handleS3Error err) /\
  (errors.As err = None -> handleS3ErrorAsserted err = handleS3Error err) /\
  (forall e code message,
     err = Some e -> errors.As err = Some (code, message) ->
     (forall c m, e <> AwsErr c m) ->
     handleS3ErrorAsserted err = err /\
     handleS3Error err =
       (if String.eqb code "NotFound" then Some ErrNotFound
        else Some (JoinErr [ErrUnexpected; e])) /\
     handleS3ErrorAsserted err <> handleS3Error err).
Proof.
  split; [|split].
  - intros code message ->. reflexivity.
  - intros Has. unfold handleS3Error. rewrite Has.
    destruct err as [[s|code message|msg|msg inner|errs]|]; try reflexivity.
    discriminate.
  - intros e code message -> Has Hwrapped.
    assert (Hsame : handleS3ErrorAsserted (Some e) = Some e).
    { destruct e; try reflexivity. now contradiction (Hwrapped code0 message0). }
    assert (Htranslated :
              handleS3Error (Some e) =
              (if String.eqb code "NotFound" then Some ErrNotFound
               else Some (JoinErr [ErrUnexpected; e]))).
    { unfold handleS3Error. rewrite Has. now destruct (String.eqb code "NotFound"). }
    split; [exact Hsame|]. split; [exact Htranslated|].
    rewrite Hsame, Htranslated.
    destruct (String.eqb code "NotFound").
    + intros H. inversion H; subst. discriminate.
    + intros H. inversion H as [Heq].
      exact (error_not_joined_with_itself e ErrUnexpected Heq).
Qed.

(** ** A constructed manager at work *)

Section Constructed.

Context {St : Type}.
Variable DefaultClient : @httpClient St.
Variables (opts : list (@Option St)) (fm : @FileManager St) (e : option error).
Hypothesis Hopts : Forall packageOption opts.
Hypothesis Hnew : NewWithOptions DefaultClient opts = (Some fm, e).
Implicit Types (w : @World St).

Lemma constructed_clients :
  (exists c, fm_s3 fm = Some c) /\ (exists h, fm_httpClient fm = Some h).
Proof.
  destruct (NewWithOptions_accepts_only_valid DefaultClient opts fm e Hopts Hnew)
    as (_ & _ & Hs3 & _).
  apply NewWithOptions_applied in Hnew.
  destruct (applyOptions_wellFormed opts Hopts _ _ Hnew) as (_ & _ & _ & Hhttp).
  { repeat split; discriminate. }
  split.
  - destruct (fm_s3 fm) as [c|]; [now exists c|contradiction].
  - destruct (fm_httpClient fm) as [h|]; [now exists h|contradiction].
Qed.


End Constructed.

(** ** Instances *)

Module Instances.

Import Mock.

Lemma fileExists_outcomes_witness :
  let herr := Some (AwsErr "NotFound" "Not Found") in
  let c := client (failing herr None) in
  let fm := manager c (web (response 0 [])) "uploads" in
  fm_s3 fm = Some c /\
  HeadObjectWithContext c (Tasks.headInput fm filename) (state start) = (tt, herr) /\
  exists found e,
    exec (fileExists fm filename) start =
      (Returned (found, e), record (CallHead (Tasks.headInput fm filename)) tt start) /\
    (found = true <-> herr = None) /\
    (found = true -> e = None) /\
    (e = None <->
     herr = None \/ errors.Is (handleS3Error herr) (Some ErrNotFound) = true) /\
    (forall message, herr = Some (AwsErr "NotFound" message) ->
       found = false /\ e = None) /\
    (forall x, e = Some x ->
       exists cause, handleS3Error herr = Some cause /\
         x = JoinErr [ErrFailedToCheckIfFileExists; cause] /\
         errors.is' x ErrFailedToCheckIfFileExists = true /\
         errors.is' x cause = true).
Proof.
  cbv zeta. split; [reflexivity|]. split; [reflexivity|].
  apply (fileExists_outcomes
           (manager (client (failing (Some (AwsErr "NotFound" "Not Found")) None))
                    (web (response 0 [])) "uploads")
           (client (failing (Some (AwsErr "NotFound" "Not Found")) None))
           eq_refl filename start tt (Some (AwsErr "NotFound" "Not Found"))).
  reflexivity.
Defined.

Lemma remove_outcomes_witness :
  let c := client (undeletable [filename]) in
  let fm := manager c (web (response 0 [])) "uploads" in
  let probed := record (CallHead (Tasks.headInput fm filename)) tt start in
  fm_s3 fm = Some c /\
  HeadObjectWithContext c (Tasks.headInput fm filename) (state start) = (tt, None) /\
  DeleteObjectWithContext c (Tasks.deleteInput fm filename) tt =
    (tt, Some (Opaque ("cannot delete " ++ filename))) /\
  exec (remove fm filename) start =
    (Returned (Some (JoinErr [ErrFailedToRemoveFile;
                              Opaque ("cannot delete " ++ filename)])),
     record (CallDelete (Tasks.deleteInput fm filename)) tt probed).
Proof.
  cbv zeta. split; [reflexivity|]. split; [reflexivity|]. split; [reflexivity|].
  destruct (remove_outcomes
              (manager (client (undeletable [filename])) (web (response 0 []))
                       "uploads")
              (client (undeletable [filename])) eq_refl filename start tt None
              eq_refl) as (_ & Hpresent).
  apply (Hpresent eq_refl tt (Some (Opaque ("cannot delete " ++ filename)))).
  reflexivity.
Defined.

Lemma Upload_outcomes_witness :
  let c := client (undeletable []) in
  let fm := manager c (web (response 0 [])) "uploads" in
  let input := {| s3.put_ACL := "public-read"; s3.put_Body := content;
                  s3.put_ContentType := contentType;
                  s3.put_Bucket := bucket fm; s3.put_Key := "/a/b.txt/" |} in
  fm_s3 fm = Some c /\
  PutObjectWithContext c input (state start) = (tt, None) /\
  exists url e,
    exec (Upload fm content "/a/b.txt/" contentType) start =
      (Returned (url, e), record (CallPut input) tt start) /\
    (e = None <-> @None error = None) /\
    (e = None ->
     url = (cdnURL fm ++ "/" ++ basePath fm ++ "/"
            ++ strings.Trim "/a/b.txt/" "/")%string) /\
    (forall cause, None = Some cause ->
       url = "" /\ e = Some (JoinErr [ErrFailedToUploadFile; cause]) /\
       errors.Is e (Some ErrFailedToUploadFile) = true /\
       errors.Is e (Some cause) = true).
Proof.
  cbv zeta. split; [reflexivity|]. split; [reflexivity|].
  apply (Upload_outcomes
           (manager (client (undeletable [])) (web (response 0 [])) "uploads")
           (client (undeletable [])) eq_refl content "/a/b.txt/" contentType
           start tt None).
  reflexivity.
Defined.


Lemma UploadFromURL_key_witness :
  let c := client (obliging []) in
  let h : @httpClient unit := web (response 4 content) in
  let fm := manager c h "uploads" in
  let fileURL := "https://example.com/a/b/testfile.txt?v=1" in
  fm_s3 fm = Some c /\ fm_httpClient fm = Some h /\
  exists out w' puts,
    exec (UploadFromURL fm fileURL) start = (out, w') /\
    calls w' = calls start ++ CallGet fileURL :: puts /\
    Forall (fun call =>
              exists input, call = CallPut input /\
                s3.put_Key input = path.Base fileURL /\
                s3.put_Key input <> "" /\
                (s3.put_Key input = "/" \/
                 strings.Contains (s3.put_Key input) "/" = false))
           puts.
Proof.
  cbv zeta. split; [reflexivity|]. split; [reflexivity|].
  exact (UploadFromURL_key
           (manager (client (obliging [])) (web (response 4 content)) "uploads")
           (client (obliging [])) (web (response 4 content)) eq_refl eq_refl
           "https://example.com/a/b/testfile.txt?v=1" start).
Defined.

Lemma UploadFromURL_single_read_witness :
  let c := client (obliging []) in
  let resp := response 8 content in
  let h : @httpClient unit := web resp in
  let fm := manager c h "uploads" in
  let fileURL := "https://example.com/testfile.txt" in
  fm_s3 fm = Some c /\ fm_httpClient fm = Some h /\
  Get h fileURL (state start) = (tt, (resp, None)) /\
  (0 <= http.ContentLength resp <= maxAlloc)%Z /\
  http.Body resp (Z.to_nat (http.ContentLength resp)) = (content, None) /\
  length content <= Z.to_nat (http.ContentLength resp) /\
  exists out w' body,
    exec (UploadFromURL fm fileURL) start = (Returned out, w') /\
    calls w' = calls start ++
      [CallGet fileURL;
       CallPut {| s3.put_ACL := DefaultACL; s3.put_Body := body;
                  s3.put_ContentType := http.ContentType resp;
                  s3.put_Bucket := bucket fm;
                  s3.put_Key := path.Base fileURL |}] /\
    body = content ++ repeat Byte.x00
                        (Z.to_nat (http.ContentLength resp) - length content) /\
    (http.ContentLength resp = 0%Z -> body = []).
Proof.
  cbv zeta. split; [reflexivity|]. split; [reflexivity|].
  split; [reflexivity|]. split; [split; discriminate|].
  split; [reflexivity|]. split; [cbn; lia|].
  apply (UploadFromURL_single_read
           (manager (client (obliging [])) (web (response 8 content)) "uploads")
           (client (obliging [])) (web (response 8 content)) eq_refl eq_refl
           "https://example.com/testfile.txt" start tt (response 8 content)
           content).
  - reflexivity.
  - split; discriminate.
  - reflexivity.
  - cbn. lia.
Defined.

Lemma NewWithOptions_keeps_wellFormed_witness :
  let c := client (obliging []) in
  let dc : @httpClient unit := web (response 0 []) in
  let opts := [WithS3Client (Some c); WithBucketName bucketName;
               WithCDNURL "https://cdn.example.com//";
               WithBasePath "//media/img/"; WithMaxFileSize (-5)] in
  let fm := {| fm_s3 := Some c; fm_httpClient := Some dc; cdnURL := cdn;
               bucket := bucketName; basePath := "media/img";
               maxFileSize := DefaultMaxFileSize |} in
  Forall packageOption opts /\
  NewWithOptions dc opts = (Some fm, None) /\
  trimmed (cdnURL fm) /\ trimmed (basePath fm) /\
  (0 < maxFileSize fm)%Z /\ fm_httpClient fm <> None.
Proof.
  cbv zeta.
  assert (Hopts : Forall (@packageOption unit)
                    [WithS3Client (Some (client (obliging [])));
                     WithBucketName bucketName;
                     WithCDNURL "https://cdn.example.com//";
                     WithBasePath "//media/img/"; WithMaxFileSize (-5)]).
  { repeat (constructor; [constructor|]). constructor. }
  split; [exact Hopts|]. split; [reflexivity|].
  exact (NewWithOptions_keeps_wellFormed (web (response 0 [])) _ _ None Hopts
           eq_refl).
Defined.

Lemma fileAbsolutePath_junctions_witness :
  let c := client (obliging []) in
  let dc : @httpClient unit := web (response 0 []) in
  let opts := [WithS3Client (Some c); WithBucketName bucketName;
               WithCDNURL "https://cdn.example.com//";
               WithBasePath "//media/img/"] in
  let fm := {| fm_s3 := Some c; fm_httpClient := Some dc; cdnURL := cdn;
               bucket := bucketName; basePath := "media/img";
               maxFileSize := DefaultMaxFileSize |} in
  let filename := "//a/b.txt/" in
  let name := strings.Trim filename "/" in
  Forall packageOption opts /\
  NewWithOptions dc opts = (Some fm, None) /\
  fileAbsolutePath fm filename =
    (cdnURL fm ++ "/" ++ basePath fm ++ "/" ++ name)%string /\
  cdnURL fm <> "" /\ trimmed (cdnURL fm) /\
  trimmed (basePath fm) /\ trimmed name /\
  fileAbsolutePath fm name = fileAbsolutePath fm filename /\
  fileAbsolutePath fm ("/" ++ filename ++ "/") = fileAbsolutePath fm filename.
Proof.
  cbv zeta.
  assert (Hopts : Forall (@packageOption unit)
                    [WithS3Client (Some (client (obliging [])));
                     WithBucketName bucketName;
                     WithCDNURL "https://cdn.example.com//";
                     WithBasePath "//media/img/"]).
  { repeat (constructor; [constructor|]). constructor. }
  split; [exact Hopts|]. split; [reflexivity|].
  exact (fileAbsolutePath_junctions (web (response 0 [])) _ _ None "//a/b.txt/"
           Hopts eq_refl).
Defined.

Lemma NewWithOptions_order_witness :
  let c := client (obliging []) in
  let dc : @httpClient unit := web (response 0 []) in
  let pre := [WithS3Client (Some c); WithBucketName "first"; WithCDNURL cdn] in
  let post := [WithBucketName ""; WithBasePath "media"] in
  let fm1 := {| fm_s3 := Some c; fm_httpClient := Some dc; cdnURL := cdn;
                bucket := "first"; basePath := "uploads";
                maxFileSize := DefaultMaxFileSize |} in
  let fm2 := {| fm_s3 := Some c; fm_httpClient := Some dc; cdnURL := cdn;
                bucket := "second"; basePath := "uploads";
                maxFileSize := DefaultMaxFileSize |} in
  applyOptions pre (initial dc) = (fm1, None) /\
  WithCDNURL "not-a-url" fm1 = (fm1, Some ErrInvalidCDNURL) /\
  rejected (NewWithOptions dc (pre ++ WithCDNURL "not-a-url" :: post))
           ErrInvalidCDNURL /\
  NewWithOptions dc (pre ++ [WithBucketName "second"]) = (Some fm2, None) /\
  bucket fm2 = "second".
Proof.
  cbv zeta.
  destruct (NewWithOptions_order (web (response 0 []) : @httpClient unit)
              [WithS3Client (Some (client (obliging [])));
               WithBucketName "first"; WithCDNURL cdn]
              [WithBucketName ""; WithBasePath "media"])
    as (Hfirst & Hbucket & _).
  split; [reflexivity|]. split; [reflexivity|].
  split; [|split; [reflexivity|]].
  - apply (Hfirst (WithCDNURL "not-a-url") _ _ ErrInvalidCDNURL eq_refl eq_refl).
  - apply (Hbucket _ None "second" eq_refl).
Defined.

Lemma New_outcomes_witness :
  let c := client (obliging []) in
  let dc : @httpClient unit := web (response 0 []) in
  let cnf := {| CDNURL := "https://cdn.example.com/"; BasePath := "/media/";
                Bucket := bucketName; MaxFileSize := 0 |} in
  let fm := {| fm_s3 := Some c; fm_httpClient := Some dc; cdnURL := cdn;
               bucket := bucketName; basePath := "media";
               maxFileSize := DefaultMaxFileSize |} in
  Bucket cnf <> "" /\ validCDNURL (strings.Trim (CDNURL cnf) "/") /\
  (exists fm', New dc (inl c) cnf = (Some fm', None)) /\
  New dc (inl c) cnf = (Some fm, None) /\
  fm = {| fm_s3 := Some c; fm_httpClient := Some dc;
          cdnURL := strings.Trim (CDNURL cnf) "/";
          bucket := Bucket cnf;
          basePath := strings.Trim (BasePath cnf) "/";
          maxFileSize := if (MaxFileSize cnf <=? 0)%Z then DefaultMaxFileSize
                         else MaxFileSize cnf |}.
Proof.
  cbv zeta.
  destruct (New_outcomes (web (response 0 []) : @httpClient unit)
              {| CDNURL := "https://cdn.example.com/"; BasePath := "/media/";
                 Bucket := bucketName; MaxFileSize := 0 |})
    as (_ & Hiff & Hfields).
  assert (Hvalid : validCDNURL (strings.Trim "https://cdn.example.com/" "/")).
  { split; [discriminate|].
    split; [now exists "https://cdn.example.com/"|right; reflexivity]. }
  split; [discriminate|]. split; [exact Hvalid|].
  split; [|split; [reflexivity|]].
  - apply (Hiff (client (obliging []))). split; [discriminate|exact Hvalid].
  - apply (Hfields (client (obliging [])) _ None eq_refl).
Defined.

Lemma filenameFromURL_strips_origin_witness :
  let fm := manager (client (obliging [])) (web (response 0 [])) "uploads" in
  strings.HasPrefix "https://elsewhere.example.com/x" cdn = false /\
  filenameFromURL cdn "https://elsewhere.example.com/x" =
    "https://elsewhere.example.com/x" /\
  strings.HasPrefix filename "/" = false /\
  filenameFromURL (cdnURL fm) (fileAbsolutePath fm filename) <> filename /\
  filenameFromURL (cdnURL fm) (fileAbsolutePath fm filename) =
    ("/" ++ basePath fm ++ "/" ++ strings.Trim filename "/")%string.
Proof.
  cbv zeta.
  destruct (filenameFromURL_strips_origin
              (manager (client (obliging [])) (web (response 0 [])) "uploads")
              filename) as (_ & Hother & Hkey & Hnever).
  split; [reflexivity|]. split; [apply Hother; reflexivity|].
  split; [reflexivity|]. split; [apply Hnever; reflexivity|exact Hkey].
Defined.

Lemma RemoveFilesFromDirectory_list_failure_witness :
  let denied := AwsErr "AccessDenied" "Access Denied" in
  let c := client (failing None (Some denied)) in
  let fm := manager c (web (response 0 [])) "uploads" in
  let t := JoinErr [ErrUnexpected; denied] in
  fm_s3 fm = Some c /\
  ListObjectsV2WithContext c (Tasks.listInput fm "dir") (state start) =
    (tt, (page [], Some denied)) /\
  handleS3Error (Some denied) = Some t /\
  errors.Is (Some t) (Some ErrNotFound) = false /\
  RemoveFilesFromDirectory fm "dir" [1; 0] start =
    (Returned (Some (JoinErr [ErrFailedToRemoveFiles; t])),
     record (CallList (Tasks.listInput fm "dir")) tt start) /\
  errors.is' (JoinErr [ErrFailedToRemoveFiles; t]) ErrFailedToRemoveFiles = true /\
  errors.is' (JoinErr [ErrFailedToRemoveFiles; t]) t = true /\
  (forall code message,
     Some denied = Some (AwsErr code message) ->
     t = JoinErr [ErrUnexpected; AwsErr code message]).
Proof.
  cbv zeta. split; [reflexivity|]. split; [reflexivity|].
  split; [reflexivity|]. split; [reflexivity|].
  apply (RemoveFilesFromDirectory_list_failure
           (manager (client (failing None
                               (Some (AwsErr "AccessDenied" "Access Denied"))))
                    (web (response 0 [])) "uploads")
           (client (failing None (Some (AwsErr "AccessDenied" "Access Denied"))))
           eq_refl "dir" [1; 0] start tt (page [])
           (Some (AwsErr "AccessDenied" "Access Denied")));
    reflexivity.
Defined.

Lemma stateless_client (sc : script) : stateless (client sc).
Proof. split; intros i s s'; reflexivity. Qed.


Lemma RemoveFilesFromDirectory_deletes_at_most_once_witness :
  let keys := ["dir/a"; "dir/b"; "dir/c"] in
  let c := client (obliging keys) in
  let fm := manager c (web (response 0 [])) "uploads" in
  fm_s3 fm = Some c /\
  ListObjectsV2WithContext c (Tasks.listInput fm "dir") (state start) =
    (tt, (page keys, None)) /\
  handleS3Error None = None /\
  exists r w' new,
    RemoveFilesFromDirectory fm "dir" [1; 1; 0; 2; 1] start = (Returned r, w') /\
    calls w' = calls start ++ CallList (Tasks.listInput fm "dir") :: new /\
    (forall k, count_occ string_dec (deletions new) k
               <= count_occ string_dec (map s3.Key (s3.Contents (page keys))) k) /\
    (forall k, In k (deletions new) ->
               In k (map s3.Key (s3.Contents (page keys)))) /\
    length (deletions new) <= length (map s3.Key (s3.Contents (page keys))) /\
    (NoDup (map s3.Key (s3.Contents (page keys))) -> NoDup (deletions new)).
Proof.
  cbv zeta. split; [reflexivity|]. split; [reflexivity|]. split; [reflexivity|].
  apply (RemoveFilesFromDirectory_deletes_at_most_once
           (manager (client (obliging ["dir/a"; "dir/b"; "dir/c"]))
                    (web (response 0 [])) "uploads")
           (client (obliging ["dir/a"; "dir/b"; "dir/c"]))
           eq_refl "dir" [1; 1; 0; 2; 1] start tt
           (page ["dir/a"; "dir/b"; "dir/c"]) None);
    reflexivity.
Defined.


Lemma handleS3Error_revisions_witness :
  let missing := AwsErr "NotFound" "Not Found" in
  let wrapped := Wrap "head object" missing in
  handleS3ErrorAsserted (Some missing) = handleS3Error (Some missing) /\
  errors.As (Some (Opaque "timeout")) = None /\
  handleS3ErrorAsserted (Some (Opaque "timeout")) =
    handleS3Error (Some (Opaque "timeout")) /\
  errors.As (Some wrapped) = Some ("NotFound", "Not Found") /\
  (forall c m, wrapped <> AwsErr c m) /\
  handleS3ErrorAsserted (Some wrapped) = Some wrapped /\
  handleS3Error (Some wrapped) = Some ErrNotFound /\
  handleS3ErrorAsserted (Some wrapped) <> handleS3Error (Some wrapped).
Proof.
  cbv zeta.
  assert (Hwrapped : forall c m,
            Wrap "head object" (AwsErr "NotFound" "Not Found") <> AwsErr c m)
    by discriminate.
  split.
  { destruct (handleS3Error_revisions (Some (AwsErr "NotFound" "Not Found")))
      as (Hleaf & _).
    apply (Hleaf "NotFound" "Not Found" eq_refl). }
  split; [reflexivity|]. split.
  { destruct (handleS3Error_revisions (Some (Opaque "timeout"))) as (_ & Hnone & _).
    apply Hnone. reflexivity. }
  split; [reflexivity|]. split; [exact Hwrapped|].
  destruct (handleS3Error_revisions
              (Some (Wrap "head object" (AwsErr "NotFound" "Not Found"))))
    as (_ & _ & Hdiffer).
  apply (Hdiffer _ "NotFound" "Not Found" eq_refl eq_refl Hwrapped).
Defined.


End Instances.
